(** * Gacha simulator: the session simulator and the distribution aggregator

    A shallow embedding of [simulateOneSession] and of the body of
    [runSimulation] (src/App.tsx), and the properties of the written
    specification that concern them.

    Numbers.  A JavaScript number is modelled by an exact rational ([Q]):
    the finite doubles, idealised (no rounding error).  The counters of the
    code ([pulls], [pityCounter6], [sessionCount], ...) start at 0 and are
    only ever incremented, so they are [nat] and are injected into [Q] where
    the code compares them with a configuration field.  The three values that
    are not finite ([NaN], [Infinity], [-Infinity]) appear only in the
    aggregator (a division by the session count, [Math.max] of no argument)
    and are modelled there by [JSNum].

    Randomness.  [Math.random] is a stream [random : nat -> Q]: [random n]
    is the value of the [n]-th call (counting from 0).  The number of calls
    made so far is threaded through the state. *)

From Stdlib Require Import QArith Qround Qminmax ZArith Lia Lqa Bool.
From stdpp Require Import base option list gmap sorting.

Local Open Scope nat_scope.

(** ** Numbers *)

Definition N2Q (n : nat) : Q := inject_Z (Z.of_nat n).

(** [a < b] on numbers, as a boolean. *)
Definition Qlt_bool (a b : Q) : bool := negb (Qle_bool b a).

(** ** Configuration *)

Module Cfg.
Record SimulationConfig := mk {
  baseRate6 : Q;
  baseRate5 : Q;
  pityStart6 : Q;
  pityInc6 : Q;
  hardPity6 : Q;
  hardPity5 : Q;
  targetGuarantee : Q;
  targetTotalPulls : Q
}.
End Cfg.
Abbreviation SimulationConfig := Cfg.SimulationConfig.

Definition DEFAULT_CONFIG : SimulationConfig :=
  {| Cfg.baseRate6 := 8 # 10;
     Cfg.baseRate5 := 8;
     Cfg.pityStart6 := 65;
     Cfg.pityInc6 := 5;
     Cfg.hardPity6 := 80;
     Cfg.hardPity5 := 10;
     Cfg.targetGuarantee := 120;
     Cfg.targetTotalPulls := 500000 |}%Q.

(** ** The session simulator *)

(** The value [simulateOneSession] returns. *)
Record SessionResult := {
  pulls : nat;
  triggeredGuarantee : bool
}.

(** The local variables of [simulateOneSession], and the number of calls of
    [Math.random] made so far. *)
Module St.
Record t := mk {
  pulls : nat;
  pityCounter6 : nat;
  pityCounter5 : nat;
  gotTarget : bool;
  calls : nat
}.
End St.

(** The three constants computed before the loop. *)
Definition baseRate6 (cfg : SimulationConfig) : Q := (Cfg.baseRate6 cfg / 100)%Q.
Definition baseRate5 (cfg : SimulationConfig) : Q := (Cfg.baseRate5 cfg / 100)%Q.
Definition pityInc6 (cfg : SimulationConfig) : Q := (Cfg.pityInc6 cfg / 100)%Q.

(** Step 2 of the loop body: [currentRate6], from the value the counter
    [pityCounter6] has after its increment. *)
Definition currentRate6 (cfg : SimulationConfig) (pityCounter6 : nat) : Q :=
  let currentRate6 := baseRate6 cfg in
  let currentRate6 :=
    if Qlt_bool (Cfg.pityStart6 cfg) (N2Q pityCounter6)
    then (currentRate6 + (N2Q pityCounter6 - Cfg.pityStart6 cfg) * pityInc6 cfg)%Q
    else currentRate6 in
  let currentRate6 := if Qlt_bool 1 currentRate6 then 1%Q else currentRate6 in
  if Qle_bool (Cfg.hardPity6 cfg) (N2Q pityCounter6) then 1%Q else currentRate6.

(** [currentRate5], from the incremented counter [pityCounter5]. *)
Definition currentRate5 (cfg : SimulationConfig) (pityCounter5 : nat) : Q :=
  if Qle_bool (Cfg.hardPity5 cfg) (N2Q pityCounter5) then 1%Q else baseRate5 cfg.

(** The test of the absolute guarantee:
    [cfg.targetGuarantee > 0 && pulls === cfg.targetGuarantee]. *)
Definition guaranteeFires (cfg : SimulationConfig) (pulls : nat) : bool :=
  Qlt_bool 0 (Cfg.targetGuarantee cfg) && Qeq_bool (N2Q pulls) (Cfg.targetGuarantee cfg).

(** What one execution of the loop body does: it returns from the function
    (with the number of calls of [Math.random] made), or it reaches the end
    of the body (or a [continue]) in a new state. *)
Inductive Outcome :=
| Returned (r : SessionResult) (calls : nat)
| Running (st : St.t).

Section Simulator.

Variable random : nat -> Q.

Definition loopBody (cfg : SimulationConfig) (st : St.t) : Outcome :=
  let pulls := S (St.pulls st) in
  let pityCounter6 := S (St.pityCounter6 st) in
  let pityCounter5 := S (St.pityCounter5 st) in
  if guaranteeFires cfg pulls then
    Returned {| pulls := pulls; triggeredGuarantee := true |} (St.calls st)
  else
    let currentRate6 := currentRate6 cfg pityCounter6 in
    let rng := random (St.calls st) in
    if Qlt_bool rng currentRate6 then
      let pityCounter6 := 0 in
      let gotTarget :=
        if Qlt_bool (random (S (St.calls st))) (1 # 2) then true else St.gotTarget st in
      Running (St.mk pulls pityCounter6 pityCounter5 gotTarget (S (S (St.calls st))))
    else
      let currentRate5 := currentRate5 cfg pityCounter5 in
      let pityCounter5 :=
        if Qlt_bool rng (currentRate6 + currentRate5)%Q then 0 else pityCounter5 in
      Running (St.mk pulls pityCounter6 pityCounter5 (St.gotTarget st) (S (St.calls st))).

(** [while (!gotTarget) { ... }  return { pulls, triggeredGuarantee: false }],
    with at most [fuel] executions of the body; [None] when the loop has
    not ended by then. *)
Fixpoint whileLoop (cfg : SimulationConfig) (fuel : nat) (st : St.t)
  : option (SessionResult * nat) :=
  if St.gotTarget st then
    Some ({| pulls := St.pulls st; triggeredGuarantee := false |}, St.calls st)
  else
    match fuel with
    | 0 => None
    | S fuel =>
        match loopBody cfg st with
        | Returned r calls => Some (r, calls)
        | Running st' => whileLoop cfg fuel st'
        end
    end.

(** The state at the entry of the loop, when [calls] calls of
    [Math.random] were made before. *)
Definition initial (calls : nat) : St.t := St.mk 0 0 0 false calls.

Definition simulateOneSession (cfg : SimulationConfig) (fuel calls : nat)
  : option (SessionResult * nat) :=
  whileLoop cfg fuel (initial calls).

End Simulator.

(** ** Numbers that need not be finite *)

Inductive JSNum :=
| Num (q : Q)
| PosInfinity
| NegInfinity
| NaN.

(** [a / b] for two counters: [0 / 0] is [NaN] and [a / 0] is [Infinity]
    for a positive [a]. *)
Definition js_div (a b : nat) : JSNum :=
  match b with
  | 0 => match a with 0 => NaN | S _ => PosInfinity end
  | S _ => Num (N2Q a / N2Q b)
  end.

(** [x * 100]. *)
Definition js_times100 (x : JSNum) : JSNum :=
  match x with
  | Num q => Num (q * 100)
  | other => other
  end.

(** The integer [n] for which [n / 10^digits] is nearest to [q], the larger
    one of two, for a [q] that is not negative; the magnitude is rounded and
    the sign restored otherwise. *)
Definition roundDigits (digits : nat) (q : Q) : Q :=
  let scale := inject_Z (10 ^ Z.of_nat digits) in
  if Qlt_bool q 0
  then (- (inject_Z (Qfloor (- q * scale + (1 # 2))) / scale))%Q
  else (inject_Z (Qfloor (q * scale + (1 # 2))) / scale)%Q.

(** [x.toFixed(digits)], as the number its string denotes (["NaN"] and
    ["Infinity"] for the values that are not finite), so that [Number] of it
    is the same value. *)
Definition toFixed (digits : nat) (x : JSNum) : JSNum :=
  match x with
  | Num q => Num (roundDigits digits q)
  | other => other
  end.

(** The larger of two numbers, as [Math.max] does it. *)
Definition js_max (x y : JSNum) : JSNum :=
  match x, y with
  | NaN, _ | _, NaN => NaN
  | PosInfinity, _ | _, PosInfinity => PosInfinity
  | NegInfinity, other | other, NegInfinity => other
  | Num a, Num b => if Qle_bool a b then Num b else Num a
  end.

(** [Math.max(...l)]: [-Infinity] for no argument. *)
Definition Math_max (l : list JSNum) : JSNum := foldr js_max NegInfinity l.

(** [x <= y] on these numbers; false when either is [NaN]. *)
Definition js_le (x y : JSNum) : bool :=
  match x, y with
  | NaN, _ | _, NaN => false
  | NegInfinity, _ | _, PosInfinity => true
  | _, NegInfinity | PosInfinity, _ => false
  | Num a, Num b => Qle_bool a b
  end.

(** [x === y] on these numbers ([NaN] equals nothing). *)
Definition js_eq (x y : JSNum) : bool :=
  match x, y with
  | Num a, Num b => Qeq_bool a b
  | PosInfinity, PosInfinity | NegInfinity, NegInfinity => true
  | _, _ => false
  end.

(** ** The distribution aggregator *)

(** An entry of [distribution]. *)
Module Dist.
Record t := mk {
  pulls : nat;
  count : nat;
  percent : JSNum;
  cumulativePercent : JSNum
}.
End Dist.

Record SimulationResult := {
  distribution : list Dist.t;
  totalSimulations : nat;
  totalPullsConsumed : nat;
  averagePulls : JSNum;
  medianPulls : option nat;
  pity120Triggered : nat;
  maxPulls : JSNum
}.

(** The variables of the first loop of [runSimulation], and the number of
    calls of [Math.random] made so far. *)
Module Agg.
Record t := mk {
  totalPulls : nat;
  sessionCount : nat;
  counts : gmap nat nat;
  pullsArray : list nat;
  triggeredGuaranteeCount : nat;
  calls : nat
}.
End Agg.

(** [counts[i] || 0]. *)
Definition countAt (counts : gmap nat nat) (i : nat) : nat := default 0 (counts !! i).

(** The body of the first loop, after the call of [simulateOneSession]
    returned [r] and left [calls] calls of [Math.random] behind. *)
Definition record (r : SessionResult) (calls : nat) (a : Agg.t) : Agg.t :=
  {| Agg.totalPulls := Agg.totalPulls a + pulls r;
     Agg.sessionCount := S (Agg.sessionCount a);
     Agg.counts := <[pulls r := countAt (Agg.counts a) (pulls r) + 1]> (Agg.counts a);
     Agg.pullsArray := Agg.pullsArray a ++ [pulls r];
     Agg.triggeredGuaranteeCount :=
       if triggeredGuarantee r then S (Agg.triggeredGuaranteeCount a)
       else Agg.triggeredGuaranteeCount a;
     Agg.calls := calls |}.

Definition emptyAgg : Agg.t := Agg.mk 0 0 ∅ [] 0 0.

(** [Math.max(...Object.keys(counts).map(Number))]. *)
Definition maxPull (counts : gmap nat nat) : JSNum :=
  Math_max ((λ k, Num (N2Q k)) <$> elements (dom counts)).

(** The values [i] takes in [for (let i = 1; i <= chartMax; i++)]; the loop
    does not end when [chartMax] is [Infinity]. *)
Definition forRange (chartMax : JSNum) : option (list nat) :=
  match chartMax with
  | Num q => Some (seq 1 (Z.to_nat (Qfloor q)))
  | NegInfinity | NaN => Some []
  | PosInfinity => None
  end.

(** The second loop, over the values of [i] that are left. *)
Fixpoint distributionLoop (cfg : SimulationConfig) (counts : gmap nat nat)
    (sessionCount : nat) (range : list nat) (runningCount : nat) : list Dist.t :=
  match range with
  | [] => []
  | i :: range =>
      let count := countAt counts i in
      let runningCount := runningCount + count in
      if (0 <? count) || Qle_bool (N2Q i) (Cfg.targetGuarantee cfg) || (i mod 10 =? 0)
      then
        {| Dist.pulls := i;
           Dist.count := count;
           Dist.percent := toFixed 3 (js_times100 (js_div count sessionCount));
           Dist.cumulativePercent :=
             toFixed 2 (js_times100 (js_div runningCount sessionCount)) |}
        :: distributionLoop cfg counts sessionCount range runningCount
      else distributionLoop cfg counts sessionCount range runningCount
  end.

(** [pullsArray.sort((a, b) => a - b)] and the element at the index
    [Math.floor(pullsArray.length / 2)] ([None] for [undefined]). *)
Definition sortAscending (pullsArray : list nat) : list nat := merge_sort le pullsArray.

Definition median (pullsArray : list nat) : option nat :=
  sortAscending pullsArray !! (length pullsArray / 2).

(** What follows the first loop. *)
Definition summarise (cfg : SimulationConfig) (a : Agg.t) : option SimulationResult :=
  let maxPull := maxPull (Agg.counts a) in
  let chartMax := js_max maxPull (Num (Cfg.targetGuarantee cfg)) in
  range ← forRange chartMax;
  Some {| distribution := distributionLoop cfg (Agg.counts a) (Agg.sessionCount a) range 0;
          totalSimulations := Agg.sessionCount a;
          totalPullsConsumed := Agg.totalPulls a;
          averagePulls := js_div (Agg.totalPulls a) (Agg.sessionCount a);
          medianPulls := median (Agg.pullsArray a);
          pity120Triggered := Agg.triggeredGuaranteeCount a;
          maxPulls := maxPull |}.

Section Aggregator.

Variable random : nat -> Q.

(** [while (totalPulls < config.targetTotalPulls) { ... }], with at most
    [fuel] sessions, each of at most [sessionFuel] draws. *)
Fixpoint sessionsLoop (cfg : SimulationConfig) (sessionFuel fuel : nat) (a : Agg.t)
  : option Agg.t :=
  if Qlt_bool (N2Q (Agg.totalPulls a)) (Cfg.targetTotalPulls cfg) then
    match fuel with
    | 0 => None
    | S fuel =>
        match simulateOneSession random cfg sessionFuel (Agg.calls a) with
        | Some (r, calls) => sessionsLoop cfg sessionFuel fuel (record r calls a)
        | None => None
        end
    end
  else Some a.

Definition runSimulation (cfg : SimulationConfig) (sessionFuel fuel : nat)
  : option SimulationResult :=
  a ← sessionsLoop cfg sessionFuel fuel emptyAgg;
  summarise cfg a.

End Aggregator.

(** ** Notions the properties are stated with *)

(** The rare-tier probability in the words of the specification: start from
    [baseRateRare]; add the escalation when the counter exceeds
    [pityStartRare]; clamp to at most 1; force 1 when the counter has
    reached [hardPityRare]. *)
Definition escalated (baseRateRare pityStartRare pityIncrementRare : Q)
    (rarePityCounter : nat) : Q :=
  if Qlt_le_dec pityStartRare (N2Q rarePityCounter)
  then (baseRateRare + (N2Q rarePityCounter - pityStartRare) * pityIncrementRare)%Q
  else baseRateRare.

Definition rareProbability (baseRateRare pityStartRare pityIncrementRare hardPityRare : Q)
    (rarePityCounter : nat) : Q :=
  if Qlt_le_dec (N2Q rarePityCounter) hardPityRare
  then Qmin (escalated baseRateRare pityStartRare pityIncrementRare rarePityCounter) 1
  else 1%Q.

(** A number that is an integer. *)
Definition isInteger (q : Q) : Prop := (inject_Z (Qfloor q) == q)%Q.

(** The configuration with another [targetGuarantee]. *)
Definition withTargetGuarantee (g : Q) (cfg : SimulationConfig) : SimulationConfig :=
  {| Cfg.baseRate6 := Cfg.baseRate6 cfg;
     Cfg.baseRate5 := Cfg.baseRate5 cfg;
     Cfg.pityStart6 := Cfg.pityStart6 cfg;
     Cfg.pityInc6 := Cfg.pityInc6 cfg;
     Cfg.hardPity6 := Cfg.hardPity6 cfg;
     Cfg.hardPity5 := Cfg.hardPity5 cfg;
     Cfg.targetGuarantee := g;
     Cfg.targetTotalPulls := Cfg.targetTotalPulls cfg |}.

(** Where the session is after [n] executions of the loop body (or less,
    when it returned before). *)
Fixpoint bodyTimes (random : nat -> Q) (cfg : SimulationConfig) (n : nat) (st : St.t)
  : Outcome :=
  match n with
  | 0 => Running st
  | S n =>
      if St.gotTarget st then
        Returned {| pulls := St.pulls st; triggeredGuarantee := false |} (St.calls st)
      else
        match loopBody random cfg st with
        | Returned r calls => Returned r calls
        | Running st' => bodyTimes random cfg n st'
        end
  end.

(** The sum of the frequencies of a frequency map. *)
Definition sumCounts (counts : gmap nat nat) : nat :=
  map_fold (λ _ v acc, v + acc) 0 counts.

(** The value [runningCount] has after the iteration [i] of the second loop. *)
Definition runningCountAt (counts : gmap nat nat) (i : nat) : nat :=
  sum_list (countAt counts <$> seq 1 i).


(** The lower one of the two middle elements of the sorted samples. *)
Definition lowerMiddle (pullsArray : list nat) : option nat :=
  sortAscending pullsArray !! (length pullsArray / 2 - 1).

(** How often [k] is among the samples. *)
Definition occurrences (k : nat) (l : list nat) : nat := length (filter (λ x, x = k) l).

(** What the first loop of [runSimulation] keeps true of its variables. *)
Record aggInv (a : Agg.t) : Prop := {
  inv_sessions : Agg.sessionCount a = length (Agg.pullsArray a);
  inv_total : Agg.totalPulls a = sum_list (Agg.pullsArray a);
  inv_counts : ∀ k, countAt (Agg.counts a) k = occurrences k (Agg.pullsArray a);
  inv_keys : ∀ k, k ∈ dom (Agg.counts a) ↔ k ∈ Agg.pullsArray a;
  inv_sum : sumCounts (Agg.counts a) = Agg.sessionCount a
}.

(** The cumulative percentage of the draw-count [i]. *)
Definition cumulativeAt (counts : gmap nat nat) (sessionCount i : nat) : JSNum :=
  toFixed 2 (js_times100 (js_div (runningCountAt counts i) sessionCount)).

(** How many samples are between 1 and [j]. *)
Definition upTo (j : nat) (l : list nat) : nat := length (filter (λ x, 1 ≤ x ∧ x ≤ j) l).

(** The results of [n] sessions run one after the other, the first of them
    after [calls] calls of [Math.random], each session starting where the one
    before it stopped drawing. *)
Fixpoint consecutiveSessions (random : nat -> Q) (cfg : SimulationConfig)
    (sessionFuel n calls : nat) : option (list SessionResult) :=
  match n with
  | 0 => Some []
  | S n =>
      match simulateOneSession random cfg sessionFuel calls with
      | Some (r, calls') =>
          match consecutiveSessions random cfg sessionFuel n calls' with
          | Some results => Some (r :: results)
          | None => None
          end
      | None => None
      end
  end.

(** ** Inputs the properties are tried on *)

(** [Math.random] playing back a list, and [d] after it. *)
Definition playback (l : list Q) (d : Q) : nat -> Q := λ n, nth n l d.

(** Every draw is a rare-tier outcome; no absolute guarantee; ten draws. *)
Definition sureRare : SimulationConfig :=
  {| Cfg.baseRate6 := 100; Cfg.baseRate5 := 8; Cfg.pityStart6 := 65; Cfg.pityInc6 := 5;
     Cfg.hardPity6 := 80; Cfg.hardPity5 := 10; Cfg.targetGuarantee := 0;
     Cfg.targetTotalPulls := 10 |}%Q.

(** Sessions of 1, 2, 3 and 4 draws under [sureRare]. *)
Definition fourSessions : nat -> Q :=
  playback [0; 0;
            0; 9 # 10; 0; 0;
            0; 9 # 10; 0; 9 # 10; 0; 0;
            0; 9 # 10; 0; 9 # 10; 0; 9 # 10; 0; 0]%Q 0%Q.

(** ** What the page computes from a result *)

(** [result.distribution.find(d => d.cumulativePercent >= threshold)?.pulls]
    ([None] for [undefined]). *)
Definition budgetFor (threshold : Q) (res : SimulationResult) : option nat :=
  Dist.pulls <$>
    List.find (λ d, js_le (Num threshold) (Dist.cumulativePercent d)) (distribution res).

(** The ticks of the horizontal axes:
    [Array.from({length: Math.ceil(maxPulls / 10) + 1}, (_, i) => i * 10)
       .filter(n => n <= maxPulls)].
    A length that is negative, [NaN] or [-Infinity] is the length 0; the
    array cannot be built for [Infinity]. *)
Definition ticks (maxPulls : JSNum) : option (list nat) :=
  match maxPulls with
  | Num q =>
      Some (List.filter (λ n, Qle_bool (N2Q n) q)
              ((λ i, i * 10) <$> seq 0 (Z.to_nat (Qceiling (q / 10) + 1))))
  | NegInfinity | NaN => Some []
  | PosInfinity => None
  end.

(** The rate of the sessions that ran into the guarantee, as the page shows
    it: [((pity120Triggered / totalSimulations) * 100).toFixed(2)]. *)
Definition guaranteeRate (res : SimulationResult) : JSNum :=
  toFixed 2 (js_times100 (js_div (pity120Triggered res) (totalSimulations res))).

(** Two configurations with the same rare-tier fields and the same
    [targetGuarantee]. *)
Definition sameRareTier (cfg cfg' : SimulationConfig) : Prop :=
  Cfg.baseRate6 cfg = Cfg.baseRate6 cfg' ∧
  Cfg.pityStart6 cfg = Cfg.pityStart6 cfg' ∧
  Cfg.pityInc6 cfg = Cfg.pityInc6 cfg' ∧
  Cfg.hardPity6 cfg = Cfg.hardPity6 cfg' ∧
  Cfg.targetGuarantee cfg = Cfg.targetGuarantee cfg'.

(** Two states of a session that differ in [pityCounter5] at most. *)
Definition sameBut5 (st st' : St.t) : Prop :=
  St.pulls st = St.pulls st' ∧
  St.pityCounter6 st = St.pityCounter6 st' ∧
  St.gotTarget st = St.gotTarget st' ∧
  St.calls st = St.calls st'.

(** The state [st] with [k] more calls of [Math.random] behind it. *)
Definition laterCalls (k : nat) (st : St.t) : St.t :=
  St.mk (St.pulls st) (St.pityCounter6 st) (St.pityCounter5 st) (St.gotTarget st)
        (k + St.calls st).

(** How many samples are at most [x], and how many at least [x]. *)
Definition atMost (x : nat) (l : list nat) : nat := length (filter (λ p, p ≤ x) l).
Definition atLeast (x : nat) (l : list nat) : nat := length (filter (λ p, x ≤ p) l).

(** * Properties *)

(** ** Comparisons *)

Lemma Qlt_bool_iff (a b : Q) : Qlt_bool a b = true ↔ (a < b)%Q.
Proof.
  unfold Qlt_bool. rewrite negb_true_iff.
  split.
  - intros H. apply Qnot_le_lt. intros Hle.
    apply Qle_bool_iff in Hle. congruence.
  - intros H. destruct (Qle_bool b a) eqn:E; [|done].
    apply Qle_bool_iff in E. exfalso. by apply (Qlt_not_le a b).
Qed.

Lemma Qlt_bool_false (a b : Q) : Qlt_bool a b = false ↔ (b <= a)%Q.
Proof.
  unfold Qlt_bool. rewrite negb_false_iff. apply Qle_bool_iff.
Qed.

Lemma Qle_bool_false (a b : Q) : Qle_bool a b = false ↔ (b < a)%Q.
Proof.
  rewrite <- Qlt_bool_iff. unfold Qlt_bool. by rewrite negb_true_iff.
Qed.

Lemma N2Q_le (a b : nat) : a ≤ b ↔ (N2Q a <= N2Q b)%Q.
Proof. unfold N2Q. rewrite <- Zle_Qle. lia. Qed.

Lemma N2Q_lt (a b : nat) : a < b ↔ (N2Q a < N2Q b)%Q.
Proof. unfold N2Q. rewrite <- Zlt_Qlt. lia. Qed.

Lemma N2Q_eq (a b : nat) : a = b ↔ (N2Q a == N2Q b)%Q.
Proof. unfold N2Q. rewrite inject_Z_injective. lia. Qed.

Lemma N2Q_plus (a b : nat) : (N2Q (a + b) == N2Q a + N2Q b)%Q.
Proof. unfold N2Q. by rewrite Nat2Z.inj_add, inject_Z_plus. Qed.

Lemma guaranteeFires_iff cfg p :
  guaranteeFires cfg p = true ↔
  (0 < Cfg.targetGuarantee cfg)%Q ∧ (N2Q p == Cfg.targetGuarantee cfg)%Q.
Proof.
  unfold guaranteeFires.
  by rewrite andb_true_iff, Qlt_bool_iff, Qeq_bool_iff.
Qed.

(** ** The rare-tier probability *)

Lemma escalated_eq cfg n :
  (if Qlt_bool (Cfg.pityStart6 cfg) (N2Q n)
   then (baseRate6 cfg + (N2Q n - Cfg.pityStart6 cfg) * pityInc6 cfg)%Q
   else baseRate6 cfg)
  = escalated (baseRate6 cfg) (Cfg.pityStart6 cfg) (pityInc6 cfg) n.
Proof.
  unfold escalated.
  destruct (Qlt_le_dec (Cfg.pityStart6 cfg) (N2Q n)) as [H|H].
  - apply Qlt_bool_iff in H. by rewrite H.
  - apply Qlt_bool_false in H. by rewrite H.
Qed.

Lemma currentRate6_spec cfg n :
  (currentRate6 cfg n ==
   rareProbability (baseRate6 cfg) (Cfg.pityStart6 cfg) (pityInc6 cfg) (Cfg.hardPity6 cfg) n)%Q.
Proof.
  unfold currentRate6, rareProbability. rewrite escalated_eq.
  set (e := escalated _ _ _ _).
  destruct (Qlt_le_dec (N2Q n) (Cfg.hardPity6 cfg)) as [H|H].
  - apply Qle_bool_false in H. rewrite H.
    destruct (Qlt_bool 1 e) eqn:E.
    + apply Qlt_bool_iff in E. symmetry. apply Q.min_r. by apply Qlt_le_weak.
    + apply Qlt_bool_false in E. symmetry. by apply Q.min_l.
  - apply Qle_bool_iff in H. by rewrite H.
Qed.

Lemma rareProbability_le_1 b s i h n : (rareProbability b s i h n <= 1)%Q.
Proof.
  unfold rareProbability. destruct (Qlt_le_dec _ _); [apply Q.le_min_r | apply Qle_refl].
Qed.

(** ** One execution of the loop body *)

Lemma loopBody_Running random cfg st st' :
  loopBody random cfg st = Running st' →
  guaranteeFires cfg (S (St.pulls st)) = false ∧ St.pulls st' = S (St.pulls st).
Proof.
  unfold loopBody. destruct (guaranteeFires _ _); [done|].
  destruct (Qlt_bool _ _); intros [= <-]; done.
Qed.

Lemma loopBody_Returned random cfg st r calls :
  loopBody random cfg st = Returned r calls →
  guaranteeFires cfg (S (St.pulls st)) = true ∧
  r = {| pulls := S (St.pulls st); triggeredGuarantee := true |} ∧ calls = St.calls st.
Proof.
  unfold loopBody. destruct (guaranteeFires _ _).
  - intros [= <- <-]. done.
  - destruct (Qlt_bool _ _); done.
Qed.

Lemma bodyTimes_Running random cfg n : ∀ st st',
  bodyTimes random cfg n st = Running st' →
  St.pulls st' = St.pulls st + n ∧
  ∀ m, whileLoop random cfg (n + m) st = whileLoop random cfg m st'.
Proof.
  induction n as [|n IH]; intros st st' H; simpl in H.
  - injection H as <-. split; [lia | done].
  - destruct (St.gotTarget st) eqn:Hg; [done|].
    destruct (loopBody random cfg st) as [r c|st1] eqn:Hb; [done|].
    destruct (IH _ _ H) as [Hp Hw].
    apply loopBody_Running in Hb as Hb'. destruct Hb' as [_ Hp1].
    split; [lia|].
    intros m. simpl. rewrite Hg, Hb. apply Hw.
Qed.

(** C1: in every draw of a session the rare-tier probability is the base
    rate, plus the escalation [(counter - pityStart) * pityIncrement] when the
    counter exceeds [pityStart], clamped to at most 1, and exactly 1 when the
    counter has reached [hardPity]; the draw is a rare-tier outcome (the rare
    counter is reset) exactly when the random value is below it.  The base
    rate and the increment are the configured percentages over 100. *)
Theorem rare_probability_of_a_draw (random : nat → Q) (cfg : SimulationConfig) (st : St.t) :
  guaranteeFires cfg (S (St.pulls st)) = false →
  let counter := S (St.pityCounter6 st) in
  let p := rareProbability (baseRate6 cfg) (Cfg.pityStart6 cfg) (pityInc6 cfg)
             (Cfg.hardPity6 cfg) counter in
  (currentRate6 cfg counter == p)%Q ∧
  (currentRate6 cfg counter <= 1)%Q ∧
  ((N2Q counter < Cfg.hardPity6 cfg)%Q →
   (p == Qmin (escalated (baseRate6 cfg) (Cfg.pityStart6 cfg) (pityInc6 cfg) counter) 1)%Q) ∧
  ((Cfg.hardPity6 cfg <= N2Q counter)%Q → currentRate6 cfg counter = 1%Q) ∧
  ∃ st', loopBody random cfg st = Running st' ∧
         (St.pityCounter6 st' = 0 ↔ (random (St.calls st) < p)%Q).
Proof.
  intros Hg counter p.
  pose proof (currentRate6_spec cfg counter) as Hspec. fold p in Hspec.
  split; [done|]. split; [rewrite Hspec; apply rareProbability_le_1|].
  split.
  { intros Hlt. unfold p, rareProbability.
    destruct (Qlt_le_dec _ _) as [_|Hle]; [reflexivity|].
    exfalso. by apply (Qlt_not_le _ _ Hlt). }
  split.
  { intros Hle. unfold currentRate6. apply Qle_bool_iff in Hle. by rewrite Hle. }
  unfold loopBody. rewrite Hg. fold counter.
  destruct (Qlt_bool (random (St.calls st)) (currentRate6 cfg counter)) eqn:E.
  - eexists. split; [done|]. simpl. split; [|done].
    intros _. apply Qlt_bool_iff in E. by rewrite <- Hspec.
  - eexists. split; [done|]. simpl. split; [done|].
    intros Hlt. rewrite <- Hspec in Hlt. apply Qlt_bool_iff in Hlt. congruence.
Qed.

(** The default configuration at the first draw: the probability is 0.8 %. *)
Lemma rare_probability_of_a_draw_witness :
  guaranteeFires DEFAULT_CONFIG 1 = false ∧
  (currentRate6 DEFAULT_CONFIG 1 ==
   rareProbability (baseRate6 DEFAULT_CONFIG) 65 (pityInc6 DEFAULT_CONFIG) 80 1)%Q.
Proof.
  split; [reflexivity|].
  refine (proj1 (rare_probability_of_a_draw (λ _, 0%Q) DEFAULT_CONFIG (initial 0) _)).
  reflexivity.
Defined.

(** C2: when [targetGuarantee > 0] and the draw counter reaches
    [targetGuarantee], the session returns at that draw with
    [(targetGuarantee, true)]; no random value is drawn for it, so the result
    is the same for every random source and whatever the rare-tier
    probability of that draw is. *)
Theorem guarantee_precedes_the_draw (random random' : nat → Q) (cfg : SimulationConfig)
    (calls n fuel : nat) (st : St.t) :
  (0 < Cfg.targetGuarantee cfg)%Q →
  bodyTimes random cfg n (initial calls) = Running st →
  St.gotTarget st = false →
  (N2Q (S (St.pulls st)) == Cfg.targetGuarantee cfg)%Q →
  n < fuel →
  let r := {| pulls := S n; triggeredGuarantee := true |} in
  loopBody random cfg st = Returned r (St.calls st) ∧
  loopBody random' cfg st = Returned r (St.calls st) ∧
  simulateOneSession random cfg fuel calls = Some (r, St.calls st) ∧
  (N2Q (pulls r) == Cfg.targetGuarantee cfg)%Q.
Proof.
  intros Hpos Hrun Hgot Heq Hfuel r.
  destruct (bodyTimes_Running _ _ _ _ _ Hrun) as [Hp Hw]. simpl in Hp.
  assert (Hfire : guaranteeFires cfg (S (St.pulls st)) = true)
    by by apply guaranteeFires_iff.
  assert (Hbody : ∀ rnd, loopBody rnd cfg st = Returned r (St.calls st)).
  { intros rnd. unfold loopBody. rewrite Hfire. unfold r. by rewrite Hp. }
  split; [done|]. split; [done|]. split.
  - unfold simulateOneSession.
    replace fuel with (n + S (fuel - S n)) by lia.
    rewrite Hw. simpl. by rewrite Hgot, Hbody.
  - simpl. by rewrite <- Hp.
Qed.

Lemma guarantee_precedes_the_draw_witness :
  (0 < Cfg.targetGuarantee (withTargetGuarantee 3 DEFAULT_CONFIG))%Q ∧
  simulateOneSession (λ _, 3 # 4)%Q (withTargetGuarantee 3 DEFAULT_CONFIG) 3 0
  = Some ({| pulls := 3; triggeredGuarantee := true |}, 2).
Proof.
  split; [reflexivity|].
  refine (proj1 (proj2 (proj2
    (guarantee_precedes_the_draw (λ _, 3 # 4)%Q (λ _, 0%Q)
       (withTargetGuarantee 3 DEFAULT_CONFIG) 0 2 3 (St.mk 2 2 2 false 2) _ _ _ _ _))));
    [reflexivity | reflexivity | reflexivity | reflexivity | lia].
Defined.

(** C3: on a draw whose random value is below the rare-tier probability the
    rare counter is reset to 0 and a second random value is drawn; below 0.5
    the session ends with [(draws, false)], otherwise it goes on with the
    next draw; in both cases the common-tier check is skipped (the common
    counter keeps its incremented value). *)
Theorem rare_outcome_draw (random : nat → Q) (cfg : SimulationConfig) (st : St.t) :
  St.gotTarget st = false →
  guaranteeFires cfg (S (St.pulls st)) = false →
  (random (St.calls st) < currentRate6 cfg (S (St.pityCounter6 st)))%Q →
  ∃ st', loopBody random cfg st = Running st' ∧
    St.pulls st' = S (St.pulls st) ∧
    St.pityCounter6 st' = 0 ∧
    St.pityCounter5 st' = S (St.pityCounter5 st) ∧
    St.calls st' = S (S (St.calls st)) ∧
    ((random (S (St.calls st)) < 1 # 2)%Q →
       ∀ fuel, whileLoop random cfg (S fuel) st
               = Some ({| pulls := S (St.pulls st); triggeredGuarantee := false |},
                       S (S (St.calls st)))) ∧
    ((1 # 2 <= random (S (St.calls st)))%Q →
       St.gotTarget st' = false ∧
       ∀ fuel, whileLoop random cfg (S fuel) st = whileLoop random cfg fuel st').
Proof.
  intros Hgot Hg Hlt. apply Qlt_bool_iff in Hlt.
  eexists. split.
  { unfold loopBody. rewrite Hg, Hlt. reflexivity. }
  simpl. repeat split.
  - intros Hc fuel. apply Qlt_bool_iff in Hc.
    simpl. rewrite Hgot. unfold loopBody. rewrite Hg, Hlt, Hc.
    destruct fuel; done.
  - apply Qlt_bool_false in H. by rewrite H.
  - intros fuel. apply Qlt_bool_false in H.
    simpl. rewrite Hgot. unfold loopBody. by rewrite Hg, Hlt, H, ?Hgot.
Qed.

Lemma rare_outcome_draw_witness :
  whileLoop (λ _, 0%Q) sureRare 1 (initial 0)
  = Some ({| pulls := 1; triggeredGuarantee := false |}, 2).
Proof.
  destruct (rare_outcome_draw (λ _, 0%Q) sureRare (initial 0))
    as (st' & _ & _ & _ & _ & _ & Hend & _);
    [reflexivity | reflexivity | reflexivity |].
  apply (Hend eq_refl 0).
Defined.

(** ** The result of a session *)

Lemma whileLoop_result random cfg fuel : ∀ st r calls,
  whileLoop random cfg fuel st = Some (r, calls) →
  (St.gotTarget st = true → guaranteeFires cfg (St.pulls st) = false) →
  triggeredGuarantee r = guaranteeFires cfg (pulls r) ∧
  St.pulls st ≤ pulls r ∧
  (St.gotTarget st = false → S (St.pulls st) ≤ pulls r).
Proof.
  induction fuel as [|fuel IH]; intros st r calls H Hinv; simpl in H.
  - destruct (St.gotTarget st); [|done]. injection H as <- <-. simpl.
    by rewrite Hinv.
  - destruct (St.gotTarget st) eqn:Hgot.
    { injection H as <- <-. simpl. by rewrite Hinv. }
    destruct (loopBody random cfg st) as [r1 c1|st1] eqn:Hb.
    + injection H as <- <-.
      apply loopBody_Returned in Hb as (Hf & -> & _). simpl. rewrite Hf.
      repeat split; lia.
    + apply loopBody_Running in Hb as [Hf Hp].
      destruct (IH _ _ _ H) as (Ht & Hle & _).
      { intros _. by rewrite Hp. }
      repeat split; [done | lia | lia].
Qed.

(** C9: a session result has [triggeredGuarantee = true] exactly when
    [targetGuarantee > 0] and the returned draw count equals
    [targetGuarantee]; so a session that ends by a random success returns
    [false], and with [targetGuarantee = 0] the flag is always [false]. *)
Theorem triggered_iff_guarantee_draw (random : nat → Q) (cfg : SimulationConfig)
    (fuel calls : nat) (r : SessionResult) (calls' : nat) :
  simulateOneSession random cfg fuel calls = Some (r, calls') →
  (triggeredGuarantee r = true ↔
   (0 < Cfg.targetGuarantee cfg)%Q ∧ (N2Q (pulls r) == Cfg.targetGuarantee cfg)%Q) ∧
  ((Cfg.targetGuarantee cfg == 0)%Q → triggeredGuarantee r = false).
Proof.
  intros H. apply whileLoop_result in H as (Ht & _ & _); [|done].
  split.
  - rewrite Ht. apply guaranteeFires_iff.
  - intros H0. rewrite Ht. apply not_true_is_false. intros Hf.
    apply guaranteeFires_iff in Hf as [Hpos _]. rewrite H0 in Hpos.
    by apply (Qlt_irrefl 0).
Qed.

Lemma triggered_iff_guarantee_draw_witness :
  simulateOneSession (λ _, 3 # 4)%Q (withTargetGuarantee 3 DEFAULT_CONFIG) 3 0
  = Some ({| pulls := 3; triggeredGuarantee := true |}, 2) ∧
  (triggeredGuarantee {| pulls := 3; triggeredGuarantee := true |} = true ↔
   (0 < 3)%Q ∧ (N2Q 3 == 3)%Q).
Proof.
  split; [reflexivity|].
  refine (proj1 (triggered_iff_guarantee_draw (λ _, 3 # 4)%Q
    (withTargetGuarantee 3 DEFAULT_CONFIG) 3 0 _ 2 _)).
  reflexivity.
Defined.

(** ** The length of a session *)

Lemma whileLoop_terminates random cfg g :
  1 ≤ g → (Cfg.targetGuarantee cfg == N2Q g)%Q →
  ∀ fuel st,
    St.pulls st ≤ g →
    (St.gotTarget st = false → St.pulls st < g) →
    g - St.pulls st ≤ fuel →
    ∃ r calls, whileLoop random cfg fuel st = Some (r, calls) ∧ pulls r ≤ g.
Proof.
  intros Hg HG. induction fuel as [|fuel IH]; intros st Hle Hlt Hfuel; simpl.
  - destruct (St.gotTarget st); [by eauto|]. specialize (Hlt eq_refl). lia.
  - destruct (St.gotTarget st); [by eauto|]. specialize (Hlt eq_refl).
    destruct (loopBody random cfg st) as [r c|st1] eqn:Hb.
    + apply loopBody_Returned in Hb as (_ & -> & _). do 2 eexists. split; [done|].
      simpl. lia.
    + apply loopBody_Running in Hb as [Hf Hp].
      assert (S (St.pulls st) ≠ g) as Hne.
      { intros Heq. apply not_true_iff_false in Hf. apply Hf.
        apply guaranteeFires_iff. rewrite HG, Heq. split; [|reflexivity].
        change 0%Q with (N2Q 0). apply N2Q_lt. lia. }
      apply IH; lia.
Qed.

Lemma simulateOneSession_at_least_one random cfg fuel calls r calls' :
  simulateOneSession random cfg fuel calls = Some (r, calls') → 1 ≤ pulls r.
Proof.
  intros H. apply whileLoop_result in H as (_ & _ & H); [|done].
  specialize (H eq_refl). simpl in H. lia.
Qed.

(** C4, amended: every session result has at least one draw; and when
    [targetGuarantee] is a positive integer the loop ends within
    [targetGuarantee] executions of its body, with a draw count of at most
    [targetGuarantee]. *)
Theorem session_length (random : nat → Q) (cfg : SimulationConfig) (fuel calls : nat) :
  (∀ r calls', simulateOneSession random cfg fuel calls = Some (r, calls') → 1 ≤ pulls r) ∧
  (∀ g, 1 ≤ g → (Cfg.targetGuarantee cfg == N2Q g)%Q → g ≤ fuel →
     ∃ r calls', simulateOneSession random cfg fuel calls = Some (r, calls') ∧
                 1 ≤ pulls r ≤ g).
Proof.
  assert (Hlow : ∀ r calls',
    simulateOneSession random cfg fuel calls = Some (r, calls') → 1 ≤ pulls r)
    by (intros r c; apply simulateOneSession_at_least_one).
  split; [done|].
  intros g Hg HG Hfuel.
  destruct (whileLoop_terminates random cfg g Hg HG fuel (initial calls))
    as (r & c & Hr & Hle); simpl; try lia.
  exists r, c. split; [done|]. split; [by eapply Hlow | done].
Qed.

Lemma session_length_witness :
  ∃ r calls', simulateOneSession (λ _, 3 # 4)%Q DEFAULT_CONFIG 120 0 = Some (r, calls') ∧
              1 ≤ pulls r ≤ 120.
Proof.
  refine (proj2 (session_length (λ _, 3 # 4)%Q DEFAULT_CONFIG 120 0) 120 _ _ _);
    [lia | reflexivity | lia].
Defined.

(** C4 as stated fails where [targetGuarantee] is positive and not an
    integer: with a guarantee of 2.5 the third session of [fourSessions]
    returns 3 draws. *)
Lemma session_exceeds_fractional_guarantee :
  (0 < Cfg.targetGuarantee (withTargetGuarantee (5 # 2) sureRare))%Q ∧
  simulateOneSession fourSessions (withTargetGuarantee (5 # 2) sureRare) 3 6
  = Some ({| pulls := 3; triggeredGuarantee := false |}, 12) ∧
  ¬ (N2Q 3 <= Cfg.targetGuarantee (withTargetGuarantee (5 # 2) sureRare))%Q.
Proof.
  split; [reflexivity|]. split; [reflexivity|].
  intros H. apply Qle_bool_iff in H. discriminate H.
Qed.

(** ** A guarantee that is not an integer *)

Lemma fractional_never_fires cfg :
  ¬ isInteger (Cfg.targetGuarantee cfg) → ∀ p, guaranteeFires cfg p = false.
Proof.
  intros Hni p. apply not_true_iff_false. intros Hf.
  apply guaranteeFires_iff in Hf as [_ Heq]. apply Hni.
  unfold isInteger.
  rewrite <- (Qfloor_comp _ _ Heq). unfold N2Q at 1. rewrite Qfloor_Z. exact Heq.
Qed.

Lemma zero_never_fires cfg p : guaranteeFires (withTargetGuarantee 0 cfg) p = false.
Proof. reflexivity. Qed.

Lemma loopBody_without_guarantee random cfg st :
  (∀ p, guaranteeFires cfg p = false) →
  loopBody random cfg st = loopBody random (withTargetGuarantee 0 cfg) st.
Proof.
  intros Hnf. unfold loopBody. by rewrite Hnf, zero_never_fires.
Qed.

Lemma whileLoop_without_guarantee random cfg :
  (∀ p, guaranteeFires cfg p = false) →
  ∀ fuel st,
    whileLoop random cfg fuel st = whileLoop random (withTargetGuarantee 0 cfg) fuel st.
Proof.
  intros Hnf. induction fuel as [|fuel IH]; intros st; simpl; [done|].
  rewrite <- loopBody_without_guarantee by done.
  destruct (St.gotTarget st); [done|].
  destruct (loopBody random cfg st); [done | apply IH].
Qed.

Lemma never_the_target cfg :
  (∀ p, guaranteeFires cfg p = false) →
  ∀ n st, St.gotTarget st = false →
    ∃ st', bodyTimes (λ _, 3 # 4)%Q cfg n st = Running st' ∧
           St.pulls st' = St.pulls st + n ∧ St.gotTarget st' = false.
Proof.
  intros Hnf. induction n as [|n IH]; intros st Hgot; simpl.
  - exists st. split; [done|]. split; [lia | done].
  - rewrite Hgot. unfold loopBody. rewrite Hnf.
    destruct (Qlt_bool _ _).
    + edestruct IH as (st' & -> & Hp & Hg'); [|exists st'; split; [done|]].
      * simpl. by rewrite Hgot.
      * simpl in Hp. split; [lia | done].
    + edestruct IH as (st' & -> & Hp & Hg'); [|exists st'; split; [done|]].
      * simpl. done.
      * simpl in Hp. split; [lia | done].
Qed.

(** C10: when [targetGuarantee] is positive and not an integer the guarantee
    branch is never taken: every session is the session of the same
    configuration with [targetGuarantee = 0], its flag is [false], and its
    draw count has no bound (with a random source that never yields the
    target the session is still drawing after any number of draws). *)
Theorem fractional_guarantee_is_no_guarantee (random : nat → Q) (cfg : SimulationConfig)
    (fuel calls : nat) :
  (0 < Cfg.targetGuarantee cfg)%Q →
  ¬ isInteger (Cfg.targetGuarantee cfg) →
  (∀ st, ∃ st', loopBody random cfg st = Running st') ∧
  simulateOneSession random cfg fuel calls
  = simulateOneSession random (withTargetGuarantee 0 cfg) fuel calls ∧
  (∀ r calls', simulateOneSession random cfg fuel calls = Some (r, calls') →
               triggeredGuarantee r = false) ∧
  (∀ n, ∃ st, bodyTimes (λ _, 3 # 4)%Q cfg n (initial calls) = Running st ∧
              St.pulls st = n ∧ St.gotTarget st = false) ∧
  simulateOneSession (λ _, 3 # 4)%Q cfg fuel calls = None.
Proof.
  intros _ Hni. pose proof (fractional_never_fires cfg Hni) as Hnf.
  split.
  { intros st. unfold loopBody. rewrite Hnf. destruct (Qlt_bool _ _); eauto. }
  split; [by apply whileLoop_without_guarantee|].
  split.
  { intros r c H. apply whileLoop_result in H as (-> & _); [apply Hnf | done]. }
  split.
  { intros n. destruct (never_the_target cfg Hnf n (initial calls)) as (st & ? & ? & ?);
      [done|]. exists st. repeat split; done. }
  unfold simulateOneSession.
  destruct (never_the_target cfg Hnf fuel (initial calls)) as (st & Hrun & _ & Hgot);
    [done|].
  apply bodyTimes_Running in Hrun as [_ Hw].
  specialize (Hw 0). rewrite Nat.add_0_r in Hw. rewrite Hw. simpl. by rewrite Hgot.
Qed.

Lemma fractional_guarantee_is_no_guarantee_witness :
  (0 < 5 # 2)%Q ∧ ¬ isInteger (5 # 2) ∧
  simulateOneSession fourSessions (withTargetGuarantee (5 # 2) sureRare) 3 6
  = simulateOneSession fourSessions (withTargetGuarantee 0 (withTargetGuarantee (5 # 2) sureRare)) 3 6.
Proof.
  assert (Hni : ¬ isInteger (5 # 2)) by (intros H; discriminate H).
  split; [reflexivity|]. split; [exact Hni|].
  refine (proj1 (proj2 (fractional_guarantee_is_no_guarantee fourSessions
    (withTargetGuarantee (5 # 2) sureRare) 3 6 _ _))); [reflexivity | exact Hni].
Defined.

(** ** The first loop of the aggregator *)

Lemma countAt_insert (m : gmap nat nat) p k :
  countAt (<[p := countAt m p + 1]> m) k
  = countAt m k + (if decide (k = p) then 1 else 0).
Proof.
  unfold countAt at 1. destruct (decide (k = p)) as [->|Hne].
  - by rewrite lookup_insert_eq.
  - rewrite lookup_insert_ne by done. unfold countAt. lia.
Qed.

Lemma sumCounts_insert (m : gmap nat nat) p :
  sumCounts (<[p := countAt m p + 1]> m) = sumCounts m + 1.
Proof.
  unfold sumCounts, countAt.
  destruct (m !! p) as [v|] eqn:Hp; simpl.
  - rewrite (map_fold_delete_L _ _ p v m); [|intros; lia|done].
    rewrite <- (insert_delete_eq m).
    rewrite map_fold_insert_L; [lia|intros; lia|apply lookup_delete_eq].
  - rewrite map_fold_insert_L; [lia|intros; lia|done].
Qed.

Lemma occurrences_snoc k l p :
  occurrences k (l ++ [p]) = occurrences k l + (if decide (k = p) then 1 else 0).
Proof.
  unfold occurrences. rewrite filter_app, length_app. f_equal.
  rewrite filter_cons, filter_nil.
  destruct (decide (p = k)), (decide (k = p)); simpl; congruence.
Qed.

Lemma emptyAgg_inv : aggInv emptyAgg.
Proof.
  split; simpl; try done.
  intros k. rewrite dom_empty_L. set_solver.
Qed.

Lemma record_inv r calls a : aggInv a → aggInv (record r calls a).
Proof.
  intros [Hs Ht Hc Hk Hsum]. split; simpl.
  - rewrite length_app. simpl. lia.
  - rewrite sum_list_with_app. simpl. lia.
  - intros k. by rewrite countAt_insert, occurrences_snoc, Hc.
  - intros k. rewrite dom_insert_L, elem_of_union, elem_of_singleton, Hk.
    rewrite elem_of_app, list_elem_of_singleton. tauto.
  - rewrite sumCounts_insert. lia.
Qed.

(** The loop ends only when the total has reached the target; the variables
    then satisfy the invariant, and either no session was run or the total
    before the last session was below the target. *)
Lemma sessionsLoop_end random cfg sessionFuel (P : nat → Prop) :
  (∀ calls r calls',
     simulateOneSession random cfg sessionFuel calls = Some (r, calls') → P (pulls r)) →
  ∀ fuel a a',
    sessionsLoop random cfg sessionFuel fuel a = Some a' →
    aggInv a → Forall P (Agg.pullsArray a) →
    aggInv a' ∧ Forall P (Agg.pullsArray a') ∧
    (Cfg.targetTotalPulls cfg <= N2Q (Agg.totalPulls a'))%Q ∧
    (a' = a ∨
     ∃ l last, Agg.pullsArray a' = l ++ [last] ∧
               (N2Q (sum_list l) < Cfg.targetTotalPulls cfg)%Q).
Proof.
  intros HP. induction fuel as [|fuel IH]; intros a a' H Hinv Hall; simpl in H.
  - destruct (Qlt_bool _ _) eqn:E; [done|]. injection H as <-.
    apply Qlt_bool_false in E. eauto.
  - destruct (Qlt_bool _ _) eqn:E.
    + destruct (simulateOneSession _ _ _ _) as [[r c]|] eqn:Hs; [|done].
      destruct (IH _ _ H) as (Hinv' & Hall' & Hge & Hlast).
      { by apply record_inv. }
      { simpl. apply Forall_app. split; [done|]. apply Forall_singleton. eauto. }
      split; [done|]. split; [done|]. split; [done|]. right.
      destruct Hlast as [->|Hlast]; [|done].
      exists (Agg.pullsArray a), (pulls r). split; [done|].
      apply Qlt_bool_iff in E. by rewrite <- (inv_total _ Hinv).
    + injection H as <-. apply Qlt_bool_false in E. eauto.
Qed.

(** The largest key of the frequency map is the largest sample. *)
Lemma Math_max_nat (l : list nat) :
  Math_max ((λ k, Num (N2Q k)) <$> l)
  = match l with [] => NegInfinity | _ => Num (N2Q (max_list l)) end.
Proof.
  induction l as [|k l IH]; [done|].
  change (Math_max ((λ k, Num (N2Q k)) <$> k :: l))
    with (js_max (Num (N2Q k)) (Math_max ((λ k, Num (N2Q k)) <$> l))).
  rewrite IH. destruct l as [|k' l].
  - simpl. unfold id. by rewrite Nat.max_0_r.
  - set (m := max_list (k' :: l)).
    change (max_list (k :: k' :: l)) with (k `max` m).
    unfold js_max. destruct (Qle_bool (N2Q k) (N2Q m)) eqn:E.
    + apply Qle_bool_iff, N2Q_le in E. by rewrite Nat.max_r.
    + apply Qle_bool_false, N2Q_lt in E. f_equal. f_equal. lia.
Qed.

Lemma max_list_same_elements (l1 l2 : list nat) :
  (∀ x, x ∈ l1 ↔ x ∈ l2) → max_list l1 = max_list l2.
Proof.
  intros H. destruct l1 as [|a l1], l2 as [|b l2]; [done| | |].
  - exfalso. eapply not_elem_of_nil, H. left.
  - exfalso. eapply not_elem_of_nil, H. left.
  - apply Nat.le_antisymm.
    + apply max_list_elem_of_le, H, max_list_elem_of. done.
    + apply max_list_elem_of_le, H, max_list_elem_of. done.
Qed.

Lemma maxPull_samples a :
  aggInv a → Agg.pullsArray a ≠ [] →
  maxPull (Agg.counts a) = Num (N2Q (max_list (Agg.pullsArray a))).
Proof.
  intros Hinv Hne. unfold maxPull. rewrite Math_max_nat.
  assert (Hel : ∀ x, x ∈ elements (dom (Agg.counts a)) ↔ x ∈ Agg.pullsArray a).
  { intros x. rewrite elem_of_elements. apply (inv_keys _ Hinv). }
  destruct (elements (dom (Agg.counts a))) as [|k ks] eqn:E.
  - destruct (Agg.pullsArray a) as [|p ps]; [done|].
    exfalso. eapply not_elem_of_nil, Hel. left.
  - rewrite <- E in *. by rewrite (max_list_same_elements _ _ Hel).
Qed.

Lemma whileLoop_more_fuel random cfg k : ∀ fuel st x,
  whileLoop random cfg fuel st = Some x → whileLoop random cfg (fuel + k) st = Some x.
Proof.
  induction fuel as [|fuel IH]; intros st x H; simpl in H.
  - destruct (St.gotTarget st) eqn:Hgot; [|done].
    destruct k; simpl; by rewrite Hgot.
  - simpl. destruct (St.gotTarget st); [done|].
    destruct (loopBody random cfg st); [done | by apply IH].
Qed.

Lemma whileLoop_bound random cfg g :
  1 ≤ g → (Cfg.targetGuarantee cfg == N2Q g)%Q →
  ∀ fuel st r calls,
    whileLoop random cfg fuel st = Some (r, calls) →
    St.pulls st ≤ g →
    (St.gotTarget st = false → St.pulls st < g) →
    pulls r ≤ g.
Proof.
  intros Hg HG fuel st r calls H Hle Hlt.
  destruct (whileLoop_terminates random cfg g Hg HG (fuel + g) st) as (r' & c' & H' & Hb);
    [done | done | lia |].
  apply (whileLoop_more_fuel _ _ g) in H. congruence.
Qed.

Lemma runSimulation_Some random cfg sessionFuel fuel res :
  runSimulation random cfg sessionFuel fuel = Some res →
  ∃ a, sessionsLoop random cfg sessionFuel fuel emptyAgg = Some a ∧
       summarise cfg a = Some res.
Proof.
  unfold runSimulation. destruct (sessionsLoop _ _ _ _ _) as [a|]; [eauto | done].
Qed.

(** The second loop always ends: its bound is never [Infinity]. *)
Lemma summarise_is_Some cfg a : is_Some (summarise cfg a).
Proof.
  unfold summarise, maxPull. rewrite Math_max_nat.
  destruct (elements (dom (Agg.counts a))); simpl; [eauto|].
  destruct (Qle_bool _ _); simpl; eauto.
Qed.

(** With a [targetGuarantee] that is a positive integer [g] the first loop
    ends: [g] draws for a session and one session for every draw of the
    target are enough. *)
Lemma sessionsLoop_terminates random cfg g sessionFuel :
  1 ≤ g → (Cfg.targetGuarantee cfg == N2Q g)%Q → g ≤ sessionFuel →
  ∀ fuel a,
    (Cfg.targetTotalPulls cfg <= N2Q (Agg.totalPulls a + fuel))%Q →
    is_Some (sessionsLoop random cfg sessionFuel fuel a).
Proof.
  intros Hg HG Hsf. induction fuel as [|fuel IH]; intros a Hle; simpl.
  - destruct (Qlt_bool _ _) eqn:E; [|eauto].
    apply Qlt_bool_iff in E. rewrite Nat.add_0_r in Hle.
    exfalso. by apply (Qlt_not_le _ _ E).
  - destruct (Qlt_bool _ _); [|eauto].
    destruct (whileLoop_terminates random cfg g Hg HG sessionFuel (initial (Agg.calls a)))
      as (r & c & Hr & _); [simpl; lia..|].
    unfold simulateOneSession. rewrite Hr.
    pose proof (simulateOneSession_at_least_one _ _ _ _ _ _ Hr) as Hone.
    apply IH. simpl. eapply Qle_trans; [exact Hle|]. apply N2Q_le. lia.
Qed.

Lemma runSimulation_terminates random cfg g sessionFuel fuel :
  1 ≤ g → (Cfg.targetGuarantee cfg == N2Q g)%Q → g ≤ sessionFuel →
  (Cfg.targetTotalPulls cfg <= N2Q fuel)%Q →
  is_Some (runSimulation random cfg sessionFuel fuel).
Proof.
  intros Hg HG Hsf Hfuel. unfold runSimulation.
  destruct (sessionsLoop_terminates random cfg g sessionFuel Hg HG Hsf fuel emptyAgg)
    as [a ->]; [done|].
  simpl. apply summarise_is_Some.
Qed.

(** What the first loop has done when it ends: it has run some sessions one
    after the other, recorded the draw count each of them returned, added
    these draw counts to the total and counted the sessions and the ones
    that ran into the guarantee; before each of these sessions the total was
    below the target. *)
Lemma sessionsLoop_sessions random cfg sessionFuel : ∀ fuel a a',
  sessionsLoop random cfg sessionFuel fuel a = Some a' →
  ∃ results,
    consecutiveSessions random cfg sessionFuel (length results) (Agg.calls a)
    = Some results ∧
    Agg.pullsArray a' = Agg.pullsArray a ++ (pulls <$> results) ∧
    Agg.sessionCount a' = Agg.sessionCount a + length results ∧
    Agg.totalPulls a' = Agg.totalPulls a + sum_list (pulls <$> results) ∧
    Agg.triggeredGuaranteeCount a'
    = Agg.triggeredGuaranteeCount a
      + length (filter (λ r, triggeredGuarantee r = true) results) ∧
    ∀ k, k < length results →
         (N2Q (Agg.totalPulls a + sum_list (pulls <$> take k results))
          < Cfg.targetTotalPulls cfg)%Q.
Proof.
  assert (Hnone : ∀ a, ∃ results,
    consecutiveSessions random cfg sessionFuel (length results) (Agg.calls a)
    = Some results ∧
    Agg.pullsArray a = Agg.pullsArray a ++ (pulls <$> results) ∧
    Agg.sessionCount a = Agg.sessionCount a + length results ∧
    Agg.totalPulls a = Agg.totalPulls a + sum_list (pulls <$> results) ∧
    Agg.triggeredGuaranteeCount a
    = Agg.triggeredGuaranteeCount a
      + length (filter (λ r, triggeredGuarantee r = true) results) ∧
    ∀ k, k < length results →
         (N2Q (Agg.totalPulls a + sum_list (pulls <$> take k results))
          < Cfg.targetTotalPulls cfg)%Q).
  { intros a. exists []. simpl. rewrite app_nil_r.
    repeat (split; [done || lia|]). intros k Hk. lia. }
  induction fuel as [|fuel IH]; intros a a' H; simpl in H.
  - destruct (Qlt_bool _ _); [done|]. injection H as <-. apply Hnone.
  - destruct (Qlt_bool _ _) eqn:E; [|injection H as <-; apply Hnone].
    destruct (simulateOneSession _ _ _ _) as [[r c]|] eqn:Hs; [|done].
    destruct (IH _ _ H) as (results & Hcons & Hp & Hn & Ht & Hg & Hbelow).
    simpl in Hcons, Hp, Hn, Ht, Hg, Hbelow.
    exists (r :: results). split; [|split; [|split; [|split; [|split]]]].
    + simpl. by rewrite Hs, Hcons.
    + rewrite Hp, <- app_assoc. done.
    + simpl. lia.
    + rewrite Ht.
      change (sum_list (pulls <$> r :: results))
        with (pulls r + sum_list (pulls <$> results)). lia.
    + rewrite Hg, filter_cons.
      destruct (triggeredGuarantee r) eqn:Etr.
      * rewrite decide_True by done. simpl. lia.
      * rewrite decide_False by congruence. lia.
    + intros k Hk. destruct k as [|k].
      * simpl. rewrite Nat.add_0_r. by apply Qlt_bool_iff.
      * simpl in Hk. specialize (Hbelow k ltac:(lia)).
        change (sum_list (pulls <$> take (S k) (r :: results)))
          with (pulls r + sum_list (pulls <$> take k results)).
        by rewrite Nat.add_assoc.
Qed.

(** C5: the aggregator runs whole sessions until the total of the draws is
    at least [targetTotalPulls]: the samples of a run are the draw counts
    that sessions run one after the other returned, each recorded as it was
    returned; the total is their sum and was below the target before each of
    these sessions.  For [targetTotalPulls > 0] the reported total is at
    least the target and less than the target plus the largest draw count of
    a session (the largest one observed, and so [targetGuarantee] when that
    is a positive integer). *)
Theorem total_overshoots_by_less_than_a_session (random : nat → Q)
    (cfg : SimulationConfig) (sessionFuel fuel : nat) (res : SimulationResult) :
  (0 < Cfg.targetTotalPulls cfg)%Q →
  runSimulation random cfg sessionFuel fuel = Some res →
  (∃ (a : Agg.t) (results : list SessionResult),
     sessionsLoop random cfg sessionFuel fuel emptyAgg = Some a ∧
     consecutiveSessions random cfg sessionFuel (totalSimulations res) 0 = Some results ∧
     Agg.pullsArray a = pulls <$> results ∧
     Forall (λ r, 1 ≤ pulls r) results ∧
     totalSimulations res = length results ∧
     totalPullsConsumed res = sum_list (pulls <$> results) ∧
     pity120Triggered res = length (filter (λ r, triggeredGuarantee r = true) results) ∧
     medianPulls res = median (pulls <$> results) ∧
     (∀ k, countAt (Agg.counts a) k = occurrences k (pulls <$> results)) ∧
     (∀ k, k < length results →
           (N2Q (sum_list (pulls <$> take k results)) < Cfg.targetTotalPulls cfg)%Q)) ∧
  (Cfg.targetTotalPulls cfg <= N2Q (totalPullsConsumed res))%Q ∧
  ∃ m, maxPulls res = Num (N2Q m) ∧
       (N2Q (totalPullsConsumed res) < Cfg.targetTotalPulls cfg + N2Q m)%Q ∧
       ∀ g, 1 ≤ g → (Cfg.targetGuarantee cfg == N2Q g)%Q →
            m ≤ g ∧
            (N2Q (totalPullsConsumed res) < Cfg.targetTotalPulls cfg + N2Q g)%Q.
Proof.
  intros Hpos Hrun.
  apply runSimulation_Some in Hrun as (a & Hloop & Hsum).
  set (P := λ p, 1 ≤ p ∧ ∀ g, 1 ≤ g → (Cfg.targetGuarantee cfg == N2Q g)%Q → p ≤ g).
  destruct (sessionsLoop_end random cfg sessionFuel P) with (fuel := fuel)
    (a := emptyAgg) (a' := a) as (Hinv & Hall & Hge & Hlast);
    [ | done | apply emptyAgg_inv | constructor | ].
  { intros calls r calls' Hs. split.
    - by eapply simulateOneSession_at_least_one.
    - intros g Hg HG. eapply (whileLoop_bound random cfg g Hg HG); [exact Hs|simpl; lia..]. }
  destruct (sessionsLoop_sessions random cfg sessionFuel fuel emptyAgg a Hloop)
    as (results & Hcons & Hsamples & Hcount & Htotal & Htally & Hbelow).
  simpl in Hcons, Hsamples, Hcount, Htotal, Htally, Hbelow.
  destruct Hlast as [->|(l & last & Hl & Hlt)].
  { exfalso. simpl in Hge. apply (Qlt_not_le _ _ Hpos). exact Hge. }
  assert (Hne : Agg.pullsArray a ≠ []) by (rewrite Hl; by destruct l).
  pose proof (maxPull_samples _ Hinv Hne) as Hmax.
  unfold summarise in Hsum. rewrite Hmax in Hsum.
  destruct (forRange _) as [range|]; [|done]. injection Hsum as <-. simpl.
  split.
  { exists a, results. split; [done|].
    split; [by rewrite Hcount|]. split; [done|].
    split.
    { apply Forall_fmap. rewrite <- Hsamples.
      eapply Forall_impl; [exact Hall|]. by intros p [? _]. }
    split; [done|]. split; [done|]. split; [done|].
    split; [by rewrite Hsamples|].
    split; [intros k; rewrite <- Hsamples; apply (inv_counts _ Hinv) | done]. }
  split; [done|].
  set (m := max_list (Agg.pullsArray a)).
  assert (Hlastm : last ≤ m).
  { apply max_list_elem_of_le. rewrite Hl. set_solver. }
  assert (Htot : (N2Q (Agg.totalPulls a) == N2Q (sum_list l) + N2Q last)%Q).
  { rewrite (inv_total _ Hinv), Hl, sum_list_with_app, N2Q_plus. simpl.
    by rewrite Nat.add_0_r. }
  exists m. split; [done|]. split.
  { apply N2Q_le in Hlastm. rewrite Htot. lra. }
  intros g Hg HG.
  assert (Hmg : m ≤ g).
  { assert (m ∈ Agg.pullsArray a) as Hin by by apply max_list_elem_of.
    rewrite Forall_forall in Hall. destruct (Hall _ Hin) as [_ Hb]. by apply Hb. }
  split; [done|].
  assert (last ≤ g) as Hlg%N2Q_le by lia. rewrite Htot. lra.
Qed.

(** The sessions of [fourSessions]: 1, 2, 3 and 4 draws, 10 in all; the
    total was 6, below the target 10, before the last of them. *)
Lemma total_overshoots_by_less_than_a_session_witness :
  (0 < Cfg.targetTotalPulls sureRare)%Q ∧
  ∃ results,
    consecutiveSessions fourSessions sureRare 10 4 0 = Some results ∧
    pulls <$> results = [1; 2; 3; 4] ∧
    10 = sum_list (pulls <$> results) ∧
    (Cfg.targetTotalPulls sureRare <= N2Q 10)%Q.
Proof.
  split; [reflexivity|].
  destruct (total_overshoots_by_less_than_a_session fourSessions sureRare 10 10
    {| distribution :=
         [Dist.mk 1 1 (Num 25.000) (Num 25.00); Dist.mk 2 1 (Num 25.000) (Num 50.00);
          Dist.mk 3 1 (Num 25.000) (Num 75.00); Dist.mk 4 1 (Num 25.000) (Num 100.00)];
       totalSimulations := 4; totalPullsConsumed := 10; averagePulls := Num (10 # 4);
       medianPulls := Some 3; pity120Triggered := 0; maxPulls := Num 4 |})
    as ((a & results & _ & Hcons & _ & _ & _ & Hsum & _) & Hge & _);
    [reflexivity | vm_compute; reflexivity |].
  exists results. split; [exact Hcons|]. split.
  - vm_compute in Hcons. injection Hcons as <-. reflexivity.
  - split; [exact Hsum | exact Hge].
Defined.

(** ** The second loop of the aggregator *)

Lemma runningCountAt_S counts j :
  runningCountAt counts (S j) = runningCountAt counts j + countAt counts (S j).
Proof.
  unfold runningCountAt. rewrite seq_S, fmap_app, sum_list_with_app. simpl. lia.
Qed.


(** Every entry stands for a draw-count of the range, with the frequency of
    the map and the cumulative percentage of that draw-count. *)
Lemma distributionLoop_entry cfg counts n e : ∀ k j,
  e ∈ distributionLoop cfg counts n (seq (S j) k) (runningCountAt counts j) →
  j < Dist.pulls e ≤ j + k ∧
  Dist.count e = countAt counts (Dist.pulls e) ∧
  Dist.cumulativePercent e = cumulativeAt counts n (Dist.pulls e).
Proof.
  induction k as [|k IH]; intros j He; simpl in He.
  - by apply not_elem_of_nil in He.
  - rewrite <- runningCountAt_S in He.
    assert (Hrest : e ∈ distributionLoop cfg counts n (seq (S (S j)) k)
                          (runningCountAt counts (S j)) →
                    j < Dist.pulls e ≤ j + S k ∧
                    Dist.count e = countAt counts (Dist.pulls e) ∧
                    Dist.cumulativePercent e = cumulativeAt counts n (Dist.pulls e)).
    { intros H. destruct (IH _ H) as (? & ? & ?). split; [lia | done]. }
    destruct (_ || _); [|by apply Hrest].
    apply elem_of_cons in He as [->|He]; [|by apply Hrest].
    simpl. split; [lia | done].
Qed.

Lemma distributionLoop_sorted cfg counts n : ∀ k j,
  StronglySorted (λ e1 e2, Dist.pulls e1 < Dist.pulls e2)
    (distributionLoop cfg counts n (seq (S j) k) (runningCountAt counts j)).
Proof.
  induction k as [|k IH]; intros j; simpl; [constructor|].
  rewrite <- runningCountAt_S.
  destruct (_ || _); [|apply IH].
  constructor; [apply IH|].
  apply Forall_forall. intros e He.
  apply distributionLoop_entry in He as [He _]. simpl. lia.
Qed.

(** A draw-count of the range with a frequency that is not zero has its entry. *)
Lemma distributionLoop_includes cfg counts n i : ∀ range rc,
  i ∈ range → 0 < countAt counts i →
  ∃ e, e ∈ distributionLoop cfg counts n range rc ∧ Dist.pulls e = i.
Proof.
  induction range as [|x range IH]; intros rc Hin Hpos.
  - by apply not_elem_of_nil in Hin.
  - simpl. apply elem_of_cons in Hin as [<-|Hin].
    + apply Nat.ltb_lt in Hpos. rewrite Hpos. simpl.
      eexists. split; [left|done].
    + destruct (IH (rc + countAt counts x) Hin Hpos) as (e & He & Hp).
      exists e. split; [|done]. destruct (_ || _); [by right | done].
Qed.

Lemma StronglySorted_lookup_lt {A} (R : A → A → Prop) (l : list A) :
  StronglySorted R l →
  ∀ i j x y, i < j → l !! i = Some x → l !! j = Some y → R x y.
Proof.
  induction 1 as [|a l _ IH Hall]; intros i j x y Hij Hi Hj; [done|].
  destruct j as [|j]; [lia|]. simpl in Hj.
  destruct i as [|i]; simpl in Hi.
  - injection Hi as <-. rewrite Forall_forall in Hall.
    apply Hall. by eapply list_elem_of_lookup_2.
  - eapply IH; [|done..]. lia.
Qed.

(** ** Rounding *)

Lemma scale_pos digits : (0 < inject_Z (10 ^ Z.of_nat digits))%Q.
Proof.
  change 0%Q with (inject_Z 0). rewrite <- Zlt_Qlt. apply Z.pow_pos_nonneg; lia.
Qed.

Lemma roundDigits_nonneg digits q :
  (0 <= q)%Q →
  roundDigits digits q
  = (inject_Z (Qfloor (q * inject_Z (10 ^ Z.of_nat digits) + (1 # 2)))
     / inject_Z (10 ^ Z.of_nat digits))%Q.
Proof.
  intros H. unfold roundDigits. apply Qlt_bool_false in H. by rewrite H.
Qed.

Lemma roundDigits_mono digits q1 q2 :
  (0 <= q1)%Q → (q1 <= q2)%Q → (roundDigits digits q1 <= roundDigits digits q2)%Q.
Proof.
  intros H1 H12. rewrite !roundDigits_nonneg by (try done; by eapply Qle_trans).
  pose proof (scale_pos digits) as Hs. set (s := inject_Z _) in *.
  apply Qmult_le_compat_r.
  - rewrite <- Zle_Qle. apply Qfloor_resp_le.
    apply Qplus_le_compat; [|apply Qle_refl].
    apply Qmult_le_compat_r; [done | by apply Qlt_le_weak].
  - apply Qlt_le_weak, Qinv_lt_0_compat, Hs.
Qed.

Lemma ratio_nonneg a n : (0 <= N2Q a / N2Q (S n) * 100)%Q.
Proof.
  apply Qmult_le_0_compat; [|done].
  apply Qle_shift_div_l.
  - change 0%Q with (N2Q 0). apply N2Q_lt. lia.
  - rewrite Qmult_0_l. change 0%Q with (N2Q 0). apply N2Q_le. lia.
Qed.


Lemma cumulativeAt_full counts n i :
  1 ≤ n → runningCountAt counts i = n → js_eq (cumulativeAt counts n i) (Num 100) = true.
Proof.
  intros Hn Hfull. destruct n as [|n]; [lia|].
  unfold cumulativeAt, js_div. rewrite Hfull. simpl. apply Qeq_bool_iff.
  rewrite roundDigits_nonneg by apply ratio_nonneg.
  assert (Hq : (N2Q (S n) / N2Q (S n) * 100 == 100)%Q).
  { unfold Qdiv. rewrite Qmult_inv_r; [reflexivity|].
    intros H0. change 0%Q with (N2Q 0) in H0. by apply N2Q_eq in H0. }
  rewrite (Qfloor_comp _ (100 * inject_Z (10 ^ Z.of_nat 2) + (1 # 2))).
  - reflexivity.
  - by rewrite Hq.
Qed.

(** ** The running count and the samples *)

Lemma upTo_0 l : upTo 0 l = 0.
Proof.
  unfold upTo. induction l as [|x l IH]; [done|].
  rewrite filter_cons. destruct (decide _); [lia | done].
Qed.

Lemma upTo_S j l : upTo (S j) l = upTo j l + occurrences (S j) l.
Proof.
  unfold upTo, occurrences. induction l as [|x l IH]; [done|].
  rewrite !filter_cons.
  destruct (decide (1 ≤ x ∧ x ≤ S j)), (decide (1 ≤ x ∧ x ≤ j)), (decide (x = S j));
    simpl; lia.
Qed.

Lemma upTo_all j l : Forall (λ p, 1 ≤ p) l → Forall (λ p, p ≤ j) l → upTo j l = length l.
Proof.
  unfold upTo. induction l as [|x l IH]; intros H1 H2; [done|].
  apply Forall_cons in H1 as [? ?]. apply Forall_cons in H2 as [? ?].
  rewrite filter_cons. destruct (decide _); [|lia]. simpl. by rewrite IH.
Qed.

Lemma runningCountAt_upTo counts l j :
  (∀ k, countAt counts k = occurrences k l) → runningCountAt counts j = upTo j l.
Proof.
  intros Hc. induction j as [|j IH]; [by rewrite upTo_0|].
  by rewrite runningCountAt_S, upTo_S, IH, Hc.
Qed.

Lemma runningCountAt_full a j :
  aggInv a → Forall (λ p, 1 ≤ p) (Agg.pullsArray a) →
  max_list (Agg.pullsArray a) ≤ j →
  runningCountAt (Agg.counts a) j = Agg.sessionCount a.
Proof.
  intros Hinv Hpos Hmax.
  rewrite (runningCountAt_upTo _ (Agg.pullsArray a)) by apply (inv_counts _ Hinv).
  rewrite (inv_sessions _ Hinv). apply upTo_all; [done|].
  apply Forall_forall. intros p Hp. apply max_list_elem_of_le in Hp. lia.
Qed.

Lemma occurrences_pos k l : k ∈ l → 0 < occurrences k l.
Proof.
  unfold occurrences. induction l as [|x l IH]; intros Hin.
  - by apply not_elem_of_nil in Hin.
  - rewrite filter_cons. destruct (decide (x = k)); [simpl; lia|].
    apply elem_of_cons in Hin as [->|Hin]; [done | by apply IH].
Qed.



(** ** The median *)

Lemma summarise_median cfg a res :
  summarise cfg a = Some res → medianPulls res = median (Agg.pullsArray a).
Proof.
  unfold summarise. destruct (forRange _); [|done]. by intros [= <-].
Qed.

(** C7, amended: the median is the element at the index [floor(count/2)] of
    the samples sorted ascending; for an even number of samples that is the
    upper one of the two middle elements. *)
Theorem median_is_upper_middle (pullsArray : list nat) :
  (∀ cfg a res, Agg.pullsArray a = pullsArray → summarise cfg a = Some res →
                medianPulls res = median pullsArray) ∧
  median pullsArray = sortAscending pullsArray !! (length pullsArray / 2) ∧
  Sorted le (sortAscending pullsArray) ∧
  sortAscending pullsArray ≡ₚ pullsArray ∧
  ∀ k, 1 ≤ k → length pullsArray = 2 * k →
    ∃ lower upper,
      sortAscending pullsArray !! (k - 1) = Some lower ∧
      sortAscending pullsArray !! k = Some upper ∧
      lower ≤ upper ∧
      lowerMiddle pullsArray = Some lower ∧
      median pullsArray = Some upper.
Proof.
  split. { intros cfg a res <-. apply summarise_median. }
  split; [done|].
  split. { apply (Sorted_merge_sort le). }
  split. { apply merge_sort_Permutation. }
  intros k Hk Hlen.
  assert (Hslen : length (sortAscending pullsArray) = 2 * k).
  { unfold sortAscending. by rewrite merge_sort_Permutation. }
  destruct (lookup_lt_is_Some_2 (sortAscending pullsArray) (k - 1)) as [lower Hlo]; [lia|].
  destruct (lookup_lt_is_Some_2 (sortAscending pullsArray) k) as [upper Hup]; [lia|].
  assert (Hhalf : length pullsArray / 2 = k).
  { rewrite Hlen, Nat.mul_comm. apply Nat.div_mul. lia. }
  exists lower, upper. split; [done|]. split; [done|]. split.
  - eapply (StronglySorted_lookup_lt le);
      [apply (StronglySorted_merge_sort le) | | exact Hlo | exact Hup]. lia.
  - unfold lowerMiddle, median. by rewrite Hhalf.
Qed.

Lemma median_is_upper_middle_witness :
  length [1; 2; 3; 4] = 2 * 2 ∧
  ∃ lower upper,
    lowerMiddle [1; 2; 3; 4] = Some lower ∧ median [1; 2; 3; 4] = Some upper ∧
    lower ≤ upper.
Proof.
  split; [reflexivity|].
  destruct (proj2 (proj2 (proj2 (proj2 (median_is_upper_middle [1; 2; 3; 4])))) 2)
    as (lower & upper & _ & _ & Hle & Hlo & Hup); [lia | reflexivity |].
  exists lower, upper. split; [exact Hlo|]. split; [exact Hup | exact Hle].
Defined.

(** C7 as stated fails for an even number of samples: the sessions of
    [fourSessions] have 1, 2, 3 and 4 draws; the reported median is 3 and
    the lower one of the two middle elements is 2. *)
Lemma median_is_not_lower_middle :
  Agg.pullsArray <$> sessionsLoop fourSessions sureRare 10 10 emptyAgg = Some [1; 2; 3; 4] ∧
  medianPulls <$> runSimulation fourSessions sureRare 10 10 = Some (Some 3) ∧
  lowerMiddle [1; 2; 3; 4] = Some 2 ∧
  median [1; 2; 3; 4] ≠ lowerMiddle [1; 2; 3; 4].
Proof.
  split; [vm_compute; reflexivity|]. split; [vm_compute; reflexivity|].
  split; [vm_compute; reflexivity|]. vm_compute. discriminate.
Qed.

(** ** No session at all *)

Lemma distributionLoop_no_session cfg e : ∀ range,
  e ∈ distributionLoop cfg ∅ 0 range 0 →
  Dist.count e = 0 ∧ Dist.percent e = NaN ∧ Dist.cumulativePercent e = NaN.
Proof.
  induction range as [|i range IH]; intros He; simpl in He.
  - by apply not_elem_of_nil in He.
  - unfold countAt in He. rewrite lookup_empty in He. simpl in He.
    destruct (_ || _); [|by apply IH].
    apply elem_of_cons in He as [->|He]; [done | by apply IH].
Qed.

Lemma distributionLoop_up_to_guarantee cfg counts n : ∀ range rc,
  Forall (λ i, (N2Q i <= Cfg.targetGuarantee cfg)%Q) range →
  length (distributionLoop cfg counts n range rc) = length range.
Proof.
  induction range as [|i range IH]; intros rc Hall; [done|].
  apply Forall_cons in Hall as [Hi Hall]. simpl.
  apply Qle_bool_iff in Hi. rewrite Hi, orb_true_r. simpl. by rewrite IH.
Qed.

Lemma range_below (q : Q) :
  Forall (λ i, (N2Q i <= q)%Q) (seq 1 (Z.to_nat (Qfloor q))).
Proof.
  apply Forall_forall. intros i Hi. apply elem_of_seq in Hi.
  apply Qle_trans with (inject_Z (Qfloor q)); [|apply Qfloor_le].
  unfold N2Q. rewrite <- Zle_Qle. lia.
Qed.

(** C8, amended: with [targetTotalPulls <= 0] no session is run and no
    random value drawn; the statistics are computed from the session count 0
    without a guard: the mean is [0 / 0 = NaN], the median is [undefined],
    the maximum is [-Infinity], and the distribution has one entry for every
    draw-count up to [targetGuarantee], each with [NaN] as percentage and as
    cumulative percentage. *)
Theorem no_session_statistics (random : nat → Q) (cfg : SimulationConfig)
    (sessionFuel fuel : nat) :
  (Cfg.targetTotalPulls cfg <= 0)%Q →
  sessionsLoop random cfg sessionFuel fuel emptyAgg = Some emptyAgg ∧
  ∃ res,
    runSimulation random cfg sessionFuel fuel = Some res ∧
    totalSimulations res = 0 ∧
    totalPullsConsumed res = 0 ∧
    averagePulls res = NaN ∧
    medianPulls res = None ∧
    maxPulls res = NegInfinity ∧
    length (distribution res) = Z.to_nat (Qfloor (Cfg.targetGuarantee cfg)) ∧
    ∀ e, e ∈ distribution res →
         Dist.count e = 0 ∧ Dist.percent e = NaN ∧ Dist.cumulativePercent e = NaN.
Proof.
  intros Hle.
  assert (Hloop : sessionsLoop random cfg sessionFuel fuel emptyAgg = Some emptyAgg).
  { assert (Qlt_bool (N2Q 0) (Cfg.targetTotalPulls cfg) = false) as E
      by by apply Qlt_bool_false.
    destruct fuel; simpl; by rewrite E. }
  split; [done|].
  unfold runSimulation. rewrite Hloop. simpl. unfold summarise. simpl.
  eexists. split; [reflexivity|]. simpl.
  repeat (split; [reflexivity|]).
  split; [|intros e; apply distributionLoop_no_session].
  rewrite distributionLoop_up_to_guarantee by apply range_below.
  apply length_seq.
Qed.

Lemma no_session_statistics_witness :
  (Cfg.targetTotalPulls (Cfg.mk (8 # 10) 8 65 5 80 10 120 0) <= 0)%Q ∧
  ∃ res,
    runSimulation (λ _, 0%Q) (Cfg.mk (8 # 10) 8 65 5 80 10 120 0) 0 0 = Some res ∧
    totalSimulations res = 0 ∧
    averagePulls res = NaN ∧
    length (distribution res) = 120.
Proof.
  assert (H : (Cfg.targetTotalPulls (Cfg.mk (8 # 10) 8 65 5 80 10 120 0) <= 0)%Q)
    by (apply Qle_bool_iff; reflexivity).
  split; [exact H|].
  destruct (no_session_statistics (λ _, 0%Q) (Cfg.mk (8 # 10) 8 65 5 80 10 120 0) 0 0 H)
    as (_ & res & Hrun & Hn & _ & Havg & _ & _ & Hlen & _).
  exists res. split; [exact Hrun|]. split; [exact Hn|]. split; [exact Havg|]. exact Hlen.
Defined.

(** C8 as stated fails: with the default configuration and
    [targetTotalPulls = 0] the mean handed to the display is [NaN], and so
    are the percentages of the 120 entries of the distribution. *)
Lemma no_session_mean_is_NaN :
  averagePulls <$> runSimulation (λ _, 0%Q) (Cfg.mk (8 # 10) 8 65 5 80 10 120 0) 0 0
  = Some NaN ∧
  (λ res, Dist.cumulativePercent <$> distribution res)
    <$> runSimulation (λ _, 0%Q) (Cfg.mk (8 # 10) 8 65 5 80 10 120 0) 0 0
  = Some (replicate 120 NaN).
Proof.
  split; vm_compute; reflexivity.
Qed.

(** * Further properties of the session simulator *)

(** ** The common tier has no effect on a session *)

Lemma currentRate6_sameRareTier cfg cfg' n :
  sameRareTier cfg cfg' → currentRate6 cfg n = currentRate6 cfg' n.
Proof.
  intros (Hb & Hs & Hi & Hh & _). unfold currentRate6, baseRate6, pityInc6.
  by rewrite Hb, Hs, Hi, Hh.
Qed.

Lemma guaranteeFires_sameRareTier cfg cfg' p :
  sameRareTier cfg cfg' → guaranteeFires cfg p = guaranteeFires cfg' p.
Proof. intros (_ & _ & _ & _ & Hg). unfold guaranteeFires. by rewrite Hg. Qed.

Lemma loopBody_sameRareTier random cfg cfg' st st' :
  sameRareTier cfg cfg' → sameBut5 st st' →
  match loopBody random cfg st, loopBody random cfg' st' with
  | Returned r c, Returned r' c' => r = r' ∧ c = c'
  | Running st1, Running st1' => sameBut5 st1 st1'
  | _, _ => False
  end.
Proof.
  intros Hcfg (Hp & H6 & Hg & Hc). unfold loopBody.
  rewrite <- (guaranteeFires_sameRareTier cfg cfg') by done.
  rewrite <- (currentRate6_sameRareTier cfg cfg') by done.
  rewrite <- Hp, <- H6, <- Hg, <- Hc.
  destruct (guaranteeFires _ _); [done|].
  destruct (Qlt_bool _ _); done.
Qed.

Lemma whileLoop_sameRareTier random cfg cfg' :
  sameRareTier cfg cfg' →
  ∀ fuel st st', sameBut5 st st' →
    whileLoop random cfg fuel st = whileLoop random cfg' fuel st'.
Proof.
  intros Hcfg. induction fuel as [|fuel IH]; intros st st' Hst; simpl.
  - destruct Hst as (Hp & _ & Hg & Hc). by rewrite Hp, Hg, Hc.
  - pose proof (loopBody_sameRareTier random cfg cfg' st st' Hcfg Hst) as Hb.
    destruct Hst as (Hp & _ & Hg & Hc). rewrite <- Hp, <- Hg, <- Hc.
    destruct (St.gotTarget st); [done|].
    destruct (loopBody random cfg st), (loopBody random cfg' st'); try done.
    + by destruct Hb as [-> ->].
    + by apply IH.
Qed.

Lemma sessionsLoop_sameRareTier random cfg cfg' sessionFuel :
  sameRareTier cfg cfg' → Cfg.targetTotalPulls cfg = Cfg.targetTotalPulls cfg' →
  ∀ fuel a, sessionsLoop random cfg sessionFuel fuel a
            = sessionsLoop random cfg' sessionFuel fuel a.
Proof.
  intros Hcfg Ht. induction fuel as [|fuel IH]; intros a; simpl; rewrite <- Ht; [done|].
  destruct (Qlt_bool _ _); [|done].
  unfold simulateOneSession.
  rewrite (whileLoop_sameRareTier random cfg cfg' Hcfg sessionFuel _ (initial (Agg.calls a)))
    by done.
  destruct (whileLoop _ _ _ _) as [[r c]|]; [apply IH | done].
Qed.

Lemma distributionLoop_sameGuarantee cfg cfg' counts n :
  Cfg.targetGuarantee cfg = Cfg.targetGuarantee cfg' →
  ∀ range rc, distributionLoop cfg counts n range rc
              = distributionLoop cfg' counts n range rc.
Proof.
  intros Hg. induction range as [|i range IH]; intros rc; simpl; [done|].
  by rewrite <- Hg, IH.
Qed.

(** X1: the result of a session, and the number of random values it draws,
    depend on the rare-tier fields and [targetGuarantee] only: the common
    tier ([baseRate5], [hardPity5]) changes neither, and so it changes no
    result of a run of the aggregator. *)
Theorem common_tier_is_irrelevant (random : nat → Q) (cfg cfg' : SimulationConfig)
    (sessionFuel fuel calls : nat) :
  sameRareTier cfg cfg' →
  simulateOneSession random cfg sessionFuel calls
  = simulateOneSession random cfg' sessionFuel calls ∧
  (Cfg.targetTotalPulls cfg = Cfg.targetTotalPulls cfg' →
   runSimulation random cfg sessionFuel fuel = runSimulation random cfg' sessionFuel fuel).
Proof.
  intros Hcfg. split.
  - by apply whileLoop_sameRareTier.
  - intros Ht. unfold runSimulation.
    rewrite (sessionsLoop_sameRareTier random cfg cfg') by done.
    destruct (sessionsLoop _ _ _ _ _) as [a|]; [|done]. simpl.
    unfold summarise. destruct Hcfg as (_ & _ & _ & _ & Hg). rewrite <- Hg.
    destruct (forRange _); [|done]. simpl.
    by rewrite (distributionLoop_sameGuarantee cfg cfg').
Qed.

Lemma common_tier_is_irrelevant_witness :
  sameRareTier DEFAULT_CONFIG (Cfg.mk (8 # 10) 50 65 5 80 3 120 500000) ∧
  simulateOneSession (λ _, 3 # 4)%Q DEFAULT_CONFIG 120 0
  = simulateOneSession (λ _, 3 # 4)%Q (Cfg.mk (8 # 10) 50 65 5 80 3 120 500000) 120 0.
Proof.
  assert (H : sameRareTier DEFAULT_CONFIG (Cfg.mk (8 # 10) 50 65 5 80 3 120 500000))
    by (repeat split).
  split; [exact H|].
  exact (proj1 (common_tier_is_irrelevant (λ _, 3 # 4)%Q DEFAULT_CONFIG _ 120 0 0 H)).
Defined.

(** ** Invariants of the loop *)

Lemma bodyTimes_invariant random cfg (I : St.t → Prop) :
  (∀ st st', I st → loopBody random cfg st = Running st' → I st') →
  ∀ n st st', I st → bodyTimes random cfg n st = Running st' → I st'.
Proof.
  intros Hstep. induction n as [|n IH]; intros st st' Hi H; simpl in H.
  - by injection H as <-.
  - destruct (St.gotTarget st); [done|].
    destruct (loopBody random cfg st) as [|st1] eqn:Hb; [done|].
    eapply IH; [|exact H]. by eapply Hstep.
Qed.

(** X2: hard pity.  When [Math.random] stays below 1, a draw whose rare
    counter has reached [hardPity6] is a rare-tier outcome; so after every
    draw of a session the rare counter is 0 or still below [hardPity6], and
    it never exceeds the number of draws. *)
Theorem hard_pity_bounds_the_rare_counter (random : nat → Q) (cfg : SimulationConfig)
    (calls n : nat) (st : St.t) :
  (∀ k, (random k < 1)%Q) →
  bodyTimes random cfg n (initial calls) = Running st →
  (St.pityCounter6 st = 0 ∨ (N2Q (St.pityCounter6 st) < Cfg.hardPity6 cfg)%Q) ∧
  St.pityCounter6 st ≤ St.pulls st.
Proof.
  intros Hrand Hrun.
  apply (bodyTimes_invariant random cfg
    (λ st, (St.pityCounter6 st = 0 ∨ (N2Q (St.pityCounter6 st) < Cfg.hardPity6 cfg)%Q) ∧
           St.pityCounter6 st ≤ St.pulls st)) in Hrun; [done| |simpl; split; [by left|lia]].
  clear Hrun st. intros st st' [_ Hle] Hb. unfold loopBody in Hb.
  destruct (guaranteeFires _ _); [done|].
  destruct (Qlt_bool _ _) eqn:E.
  - injection Hb as <-. simpl. split; [by left | lia].
  - injection Hb as <-. simpl. split; [|lia]. right.
    apply Qlt_bool_false in E.
    destruct (Qlt_le_dec (N2Q (S (St.pityCounter6 st))) (Cfg.hardPity6 cfg)) as [?|Hhard];
      [done|].
    exfalso. unfold currentRate6 in E. apply Qle_bool_iff in Hhard. rewrite Hhard in E.
    apply (Qlt_not_le _ _ (Hrand (St.calls st))). exact E.
Qed.

Lemma hard_pity_bounds_the_rare_counter_witness :
  (∀ k : nat, (3 # 4 < 1)%Q) ∧
  ((2 = 0 ∨ (N2Q 2 < Cfg.hardPity6 DEFAULT_CONFIG)%Q) ∧ 2 ≤ 2).
Proof.
  split; [intros _; reflexivity|].
  refine (hard_pity_bounds_the_rare_counter (λ _, 3 # 4)%Q DEFAULT_CONFIG 0 2
            (St.mk 2 2 2 false 2) _ _); [intros _; reflexivity | reflexivity].
Defined.

(** ** The rare-tier probability as a function of the counter *)

Lemma escalated_mono b s i n m :
  (0 <= i)%Q → n ≤ m → (escalated b s i n <= escalated b s i m)%Q.
Proof.
  intros Hi Hnm. apply N2Q_le in Hnm. unfold escalated.
  destruct (Qlt_le_dec s (N2Q n)) as [Hn|Hn], (Qlt_le_dec s (N2Q m)) as [Hm|Hm].
  - apply Qplus_le_compat; [apply Qle_refl|].
    apply Qmult_le_compat_r; [lra | done].
  - lra.
  - assert (0 <= (N2Q m - s) * i)%Q by (apply Qmult_le_0_compat; lra). lra.
  - apply Qle_refl.
Qed.

Lemma escalated_lower b s i n : (0 <= i)%Q → (b <= escalated b s i n)%Q.
Proof.
  intros Hi. unfold escalated. destruct (Qlt_le_dec s (N2Q n)) as [Hn|Hn]; [|apply Qle_refl].
  assert (0 <= (N2Q n - s) * i)%Q by (apply Qmult_le_0_compat; lra). lra.
Qed.

Lemma percent_nonneg (x : Q) : (0 <= x)%Q → (0 <= x / 100)%Q.
Proof. intros H. apply Qle_shift_div_l; [reflexivity | lra]. Qed.

Lemma currentRate6_lower cfg n :
  (0 <= Cfg.pityInc6 cfg)%Q → (Qmin (baseRate6 cfg) 1 <= currentRate6 cfg n)%Q.
Proof.
  intros Hi. apply percent_nonneg in Hi.
  rewrite currentRate6_spec. unfold rareProbability.
  destruct (Qlt_le_dec _ _); [|apply Q.le_min_r].
  apply Q.min_le_compat_r. by apply escalated_lower.
Qed.

Lemma currentRate6_nonneg cfg n :
  (0 <= Cfg.baseRate6 cfg)%Q → (0 <= Cfg.pityInc6 cfg)%Q → (0 <= currentRate6 cfg n)%Q.
Proof.
  intros Hb Hi. eapply Qle_trans; [|by apply currentRate6_lower].
  apply percent_nonneg in Hb. apply Q.min_glb; [done | lra].
Qed.

(** X3: with a base rate and an increment that are not negative, the
    rare-tier probability of a draw is between 0 and 1, is at least the base
    rate (capped at 1), and does not decrease as the rare counter grows. *)
Theorem rare_probability_is_monotone (cfg : SimulationConfig) (n m : nat) :
  (0 <= Cfg.baseRate6 cfg)%Q → (0 <= Cfg.pityInc6 cfg)%Q → n ≤ m →
  (0 <= currentRate6 cfg n)%Q ∧
  (currentRate6 cfg n <= 1)%Q ∧
  (Qmin (baseRate6 cfg) 1 <= currentRate6 cfg n)%Q ∧
  (currentRate6 cfg n <= currentRate6 cfg m)%Q.
Proof.
  intros Hb Hi Hnm.
  split; [by apply currentRate6_nonneg|].
  split; [rewrite currentRate6_spec; apply rareProbability_le_1|].
  split; [by apply currentRate6_lower|].
  apply percent_nonneg in Hi.
  rewrite !currentRate6_spec. unfold rareProbability.
  apply N2Q_le in Hnm as Hnm'.
  destruct (Qlt_le_dec (N2Q n) _) as [Hn|Hn], (Qlt_le_dec (N2Q m) _) as [Hm|Hm].
  - apply Q.min_le_compat_r. by apply escalated_mono.
  - apply Q.le_min_r.
  - lra.
  - apply Qle_refl.
Qed.

Lemma rare_probability_is_monotone_witness :
  (0 <= Cfg.baseRate6 DEFAULT_CONFIG)%Q ∧ (0 <= Cfg.pityInc6 DEFAULT_CONFIG)%Q ∧ 66 ≤ 70 ∧
  (currentRate6 DEFAULT_CONFIG 66 <= currentRate6 DEFAULT_CONFIG 70)%Q.
Proof.
  assert (H1 : (0 <= Cfg.baseRate6 DEFAULT_CONFIG)%Q) by (apply Qle_bool_iff; reflexivity).
  assert (H2 : (0 <= Cfg.pityInc6 DEFAULT_CONFIG)%Q) by (apply Qle_bool_iff; reflexivity).
  assert (H3 : 66 ≤ 70) by lia.
  split; [exact H1|]. split; [exact H2|]. split; [exact H3|].
  exact (proj2 (proj2 (proj2 (rare_probability_is_monotone DEFAULT_CONFIG 66 70 H1 H2 H3)))).
Defined.

(** ** The random values a session draws *)

Lemma loopBody_calls random cfg st st' :
  loopBody random cfg st = Running st' →
  (St.calls st' = S (St.calls st) ∨ St.calls st' = S (S (St.calls st))) ∧
  (St.gotTarget st = false → St.gotTarget st' = true →
   St.calls st' = S (S (St.calls st))).
Proof.
  unfold loopBody. destruct (guaranteeFires _ _); [done|].
  destruct (Qlt_bool _ _); intros [= <-]; simpl.
  - split; [by right | done].
  - split; [by left | congruence].
Qed.

Lemma whileLoop_calls random cfg fuel : ∀ st r calls',
  whileLoop random cfg fuel st = Some (r, calls') →
  St.gotTarget st = false →
  if triggeredGuarantee r
  then St.calls st + (pulls r - St.pulls st - 1) ≤ calls' ∧
       calls' ≤ St.calls st + 2 * (pulls r - St.pulls st - 1)
  else St.calls st + (pulls r - St.pulls st) + 1 ≤ calls' ∧
       calls' ≤ St.calls st + 2 * (pulls r - St.pulls st).
Proof.
  induction fuel as [|fuel IH]; intros st r calls' H Hgot; simpl in H; rewrite Hgot in H;
    [done|].
  destruct (loopBody random cfg st) as [r1 c1|st1] eqn:Hb.
  - injection H as <- <-. apply loopBody_Returned in Hb as (_ & -> & ->). simpl. lia.
  - apply loopBody_Running in Hb as Hb'. destruct Hb' as [_ Hp].
    apply loopBody_calls in Hb as [Hc Hc2].
    destruct (St.gotTarget st1) eqn:Hgot1.
    + specialize (Hc2 Hgot eq_refl).
      destruct fuel; simpl in H; rewrite Hgot1 in H; injection H as <- <-; simpl; lia.
    + pose proof (whileLoop_result _ _ _ _ _ _ H) as (_ & _ & Hlt).
      { by rewrite Hgot1. }
      specialize (Hlt Hgot1). specialize (IH _ _ _ H Hgot1).
      destruct (triggeredGuarantee r); lia.
Qed.

(** X4: a session that ends by the guarantee after [p] draws has drawn
    between [p - 1] and [2 (p - 1)] random values; a session that ends by a
    random success after [p] draws has drawn between [p + 1] and [2 p]. *)
Theorem random_values_of_a_session (random : nat → Q) (cfg : SimulationConfig)
    (fuel calls : nat) (r : SessionResult) (calls' : nat) :
  simulateOneSession random cfg fuel calls = Some (r, calls') →
  if triggeredGuarantee r
  then calls + (pulls r - 1) ≤ calls' ≤ calls + 2 * (pulls r - 1)
  else calls + pulls r + 1 ≤ calls' ≤ calls + 2 * pulls r.
Proof.
  intros H. apply whileLoop_calls in H; [|done]. simpl in H.
  destruct (triggeredGuarantee r); lia.
Qed.

Lemma random_values_of_a_session_witness :
  simulateOneSession fourSessions sureRare 3 6
  = Some ({| pulls := 3; triggeredGuarantee := false |}, 12) ∧
  6 + 3 + 1 ≤ 12 ≤ 6 + 2 * 3.
Proof.
  split; [reflexivity|].
  exact (random_values_of_a_session fourSessions sureRare 3 6
           {| pulls := 3; triggeredGuarantee := false |} 12 eq_refl).
Defined.

(** ** The guarantee only cuts a session short *)

Lemma loopBody_before_guarantee random cfg st :
  guaranteeFires cfg (S (St.pulls st)) = false →
  loopBody random cfg st = loopBody random (withTargetGuarantee 0 cfg) st.
Proof.
  intros Hnf. unfold loopBody. by rewrite Hnf, zero_never_fires.
Qed.

Lemma whileLoop_calls_le random cfg fuel st r calls' :
  whileLoop random cfg fuel st = Some (r, calls') → St.calls st ≤ calls'.
Proof.
  intros H. destruct (St.gotTarget st) eqn:Hgot.
  - destruct fuel; simpl in H; rewrite Hgot in H; by injection H as <- <-.
  - apply whileLoop_calls in H; [|done]. destruct (triggeredGuarantee r); lia.
Qed.

Lemma whileLoop_cut random cfg g :
  1 ≤ g → (Cfg.targetGuarantee cfg == N2Q g)%Q →
  ∀ fuel st r calls',
    whileLoop random (withTargetGuarantee 0 cfg) fuel st = Some (r, calls') →
    St.pulls st < g →
    (pulls r < g → whileLoop random cfg fuel st = Some (r, calls')) ∧
    (g ≤ pulls r →
     ∃ c, whileLoop random cfg fuel st
          = Some ({| pulls := g; triggeredGuarantee := true |}, c) ∧ c ≤ calls').
Proof.
  intros Hg HG. induction fuel as [|fuel IH]; intros st r calls' H Hlt.
  - simpl in *. destruct (St.gotTarget st); [|done]. injection H as <- <-. simpl.
    split; [done | lia].
  - simpl in *. destruct (St.gotTarget st) eqn:Hgot.
    { injection H as <- <-. simpl. split; [done | lia]. }
    destruct (guaranteeFires cfg (S (St.pulls st))) eqn:Hf.
    + apply guaranteeFires_iff in Hf as Hf'. destruct Hf' as [_ Heq].
      rewrite HG in Heq. apply N2Q_eq in Heq.
      assert (Hbody : loopBody random cfg st
                      = Returned {| pulls := g; triggeredGuarantee := true |} (St.calls st)).
      { unfold loopBody. by rewrite Hf, Heq. }
      rewrite Hbody.
      assert (Hr : S (St.pulls st) ≤ pulls r ∧ St.calls st ≤ calls').
      { destruct (loopBody random (withTargetGuarantee 0 cfg) st) as [r1 c1|st1] eqn:Hb.
        - by apply loopBody_Returned in Hb as (Hz & _).
        - apply loopBody_Running in Hb as Hb'. destruct Hb' as [_ Hp].
          apply loopBody_calls in Hb as [Hc _].
          apply whileLoop_calls_le in H as Hc'.
          apply whileLoop_result in H as (_ & Hle & _).
          + lia.
          + intros _. apply zero_never_fires. }
      split; [lia|]. intros _. exists (St.calls st). split; [done | lia].
    + rewrite (loopBody_before_guarantee random cfg st Hf).
      destruct (loopBody random (withTargetGuarantee 0 cfg) st) as [r1 c1|st1] eqn:Hb.
      { by apply loopBody_Returned in Hb as (Hz & _). }
      apply loopBody_Running in Hb as Hb'. destruct Hb' as [_ Hp].
      apply loopBody_calls in Hb as [Hc _].
      assert (S (St.pulls st) ≠ g) as Hne.
      { intros Heq. apply not_true_iff_false in Hf. apply Hf.
        apply guaranteeFires_iff. rewrite HG, Heq. split; [|reflexivity].
        change 0%Q with (N2Q 0). apply N2Q_lt. lia. }
      apply IH; [done | lia].
Qed.

(** X5: with a [targetGuarantee] that is a positive integer [g], a session is
    the session of the same configuration without guarantee, cut at draw
    [g]: when that one ends before draw [g] both return the same result after
    the same random values; when it needs [g] draws or more, the session
    returns [(g, true)] and has drawn no more random values. *)
Theorem guarantee_cuts_the_session (random : nat → Q) (cfg : SimulationConfig)
    (g fuel calls : nat) (r : SessionResult) (calls' : nat) :
  1 ≤ g → (Cfg.targetGuarantee cfg == N2Q g)%Q →
  simulateOneSession random (withTargetGuarantee 0 cfg) fuel calls = Some (r, calls') →
  (pulls r < g → simulateOneSession random cfg fuel calls = Some (r, calls')) ∧
  (g ≤ pulls r →
   ∃ c, simulateOneSession random cfg fuel calls
        = Some ({| pulls := g; triggeredGuarantee := true |}, c) ∧ c ≤ calls').
Proof.
  intros Hg HG H. apply (whileLoop_cut random cfg g Hg HG fuel _ _ _ H). simpl. lia.
Qed.

Lemma guarantee_cuts_the_session_witness :
  1 ≤ 2 ∧
  ∃ c, simulateOneSession fourSessions (withTargetGuarantee 2 sureRare) 3 6
       = Some ({| pulls := 2; triggeredGuarantee := true |}, c) ∧ c ≤ 12.
Proof.
  split; [lia|].
  refine (proj2 (guarantee_cuts_the_session fourSessions (withTargetGuarantee 2 sureRare)
            2 3 6 {| pulls := 3; triggeredGuarantee := false |} 12 _ _ _) _);
    [lia | reflexivity | reflexivity | simpl; lia].
Defined.

(** ** A session reads the random values from its first call on *)

Lemma loopBody_laterCalls random cfg k st :
  match loopBody (λ n, random (k + n)) cfg st, loopBody random cfg (laterCalls k st) with
  | Returned r c, Returned r' c' => r = r' ∧ c' = k + c
  | Running st1, Running st1' => st1' = laterCalls k st1
  | _, _ => False
  end.
Proof.
  unfold loopBody, laterCalls. simpl.
  destruct (guaranteeFires _ _); [done|].
  rewrite <- !Nat.add_succ_r.
  destruct (Qlt_bool _ _); simpl; by rewrite <- ?Nat.add_succ_r.
Qed.

Lemma whileLoop_laterCalls random cfg k : ∀ fuel st,
  whileLoop random cfg fuel (laterCalls k st)
  = (λ x, (x.1, k + x.2)) <$> whileLoop (λ n, random (k + n)) cfg fuel st.
Proof.
  induction fuel as [|fuel IH]; intros st; simpl.
  - by destruct (St.gotTarget st).
  - destruct (St.gotTarget st); [done|].
    pose proof (loopBody_laterCalls random cfg k st) as Hb.
    destruct (loopBody (λ n, random (k + n)) cfg st),
             (loopBody random cfg (laterCalls k st)); try done.
    + by destruct Hb as [-> ->].
    + rewrite Hb. apply IH.
Qed.

(** X6: a session that starts after [k] calls of [Math.random] is the session
    that starts at call 0 of the random source without its first [k]
    values: it has no other state than the values it draws. *)
Theorem session_starts_afresh (random : nat → Q) (cfg : SimulationConfig)
    (fuel k : nat) :
  simulateOneSession random cfg fuel k
  = (λ x, (x.1, k + x.2)) <$> simulateOneSession (λ n, random (k + n)) cfg fuel 0.
Proof.
  unfold simulateOneSession. rewrite <- whileLoop_laterCalls.
  unfold initial, laterCalls. simpl. by rewrite Nat.add_0_r.
Qed.

(** * Further properties of the aggregator *)

(** ** The shape of a result *)

Lemma sessionsLoop_invariant random cfg sessionFuel (I : Agg.t → Prop) :
  (∀ a r calls, I a →
     simulateOneSession random cfg sessionFuel (Agg.calls a) = Some (r, calls) →
     I (record r calls a)) →
  ∀ fuel a a', sessionsLoop random cfg sessionFuel fuel a = Some a' → I a → I a'.
Proof.
  intros Hstep. induction fuel as [|fuel IH]; intros a a' H Hi; simpl in H.
  - destruct (Qlt_bool _ _); [done|]. by injection H as <-.
  - destruct (Qlt_bool _ _); [|by injection H as <-].
    destruct (simulateOneSession _ _ _ _) as [[r c]|] eqn:Hs; [|done].
    eapply IH; [exact H|]. by eapply Hstep.
Qed.

(** The tally of the guarantee counts the samples at which the guarantee
    fires. *)
Lemma tally_invariant random cfg sessionFuel fuel a :
  sessionsLoop random cfg sessionFuel fuel emptyAgg = Some a →
  Agg.triggeredGuaranteeCount a
  = length (filter (λ p, guaranteeFires cfg p = true) (Agg.pullsArray a)).
Proof.
  intros H.
  apply (sessionsLoop_invariant random cfg sessionFuel
    (λ a, Agg.triggeredGuaranteeCount a
          = length (filter (λ p, guaranteeFires cfg p = true) (Agg.pullsArray a))))
    in H; [done| |done].
  clear. intros a r calls Hi Hs. simpl.
  apply whileLoop_result in Hs as (Ht & _); [|done].
  rewrite filter_app, length_app, filter_cons, filter_nil, <- Hi, Ht.
  destruct (guaranteeFires cfg (pulls r)) eqn:E.
  - rewrite decide_True by done. simpl. lia.
  - rewrite decide_False by congruence. simpl. lia.
Qed.

Lemma samples_invariant random cfg sessionFuel fuel a :
  sessionsLoop random cfg sessionFuel fuel emptyAgg = Some a →
  aggInv a ∧ Forall (λ p, 1 ≤ p) (Agg.pullsArray a).
Proof.
  intros H.
  destruct (sessionsLoop_end random cfg sessionFuel (λ p, 1 ≤ p)) with (fuel := fuel)
    (a := emptyAgg) (a' := a) as (Hinv & Hpos & _ & _);
    [ | done | apply emptyAgg_inv | constructor | done].
  intros calls r calls'. apply simulateOneSession_at_least_one.
Qed.

(** The bound of the second loop reaches the largest sample and
    [targetGuarantee]. *)
Lemma chartMax_reaches cfg a :
  aggInv a →
  ∃ c, js_max (maxPull (Agg.counts a)) (Num (Cfg.targetGuarantee cfg)) = Num c ∧
       max_list (Agg.pullsArray a) ≤ Z.to_nat (Qfloor c) ∧
       (Cfg.targetGuarantee cfg <= c)%Q.
Proof.
  intros Hinv. destruct (Agg.pullsArray a) as [|p ps] eqn:Hl.
  - assert (elements (dom (Agg.counts a)) = []) as Hel.
    { apply elem_of_nil_inv. intros k Hk. apply elem_of_elements in Hk.
      apply (inv_keys _ Hinv) in Hk. rewrite Hl in Hk. by apply not_elem_of_nil in Hk. }
    unfold maxPull. rewrite Hel. simpl. eexists. split; [done|]. split; [lia | apply Qle_refl].
  - rewrite <- Hl. rewrite (maxPull_samples _ Hinv) by (rewrite Hl; done).
    set (m := max_list (Agg.pullsArray a)). unfold js_max.
    destruct (Qle_bool (N2Q m) (Cfg.targetGuarantee cfg)) eqn:E; eexists; (split; [done|]).
    + split; [|apply Qle_refl].
      apply Qle_bool_iff, Qfloor_resp_le in E. unfold N2Q in E. rewrite Qfloor_Z in E. lia.
    + split; [unfold N2Q; rewrite Qfloor_Z; lia|].
      apply Qle_bool_false in E. by apply Qlt_le_weak.
Qed.

Lemma runSimulation_shape random cfg sessionFuel fuel res :
  runSimulation random cfg sessionFuel fuel = Some res →
  ∃ a c,
    sessionsLoop random cfg sessionFuel fuel emptyAgg = Some a ∧
    aggInv a ∧ Forall (λ p, 1 ≤ p) (Agg.pullsArray a) ∧
    max_list (Agg.pullsArray a) ≤ Z.to_nat (Qfloor c) ∧
    (Cfg.targetGuarantee cfg <= c)%Q ∧
    js_max (maxPull (Agg.counts a)) (Num (Cfg.targetGuarantee cfg)) = Num c ∧
    res = {| distribution :=
               distributionLoop cfg (Agg.counts a) (Agg.sessionCount a)
                 (seq 1 (Z.to_nat (Qfloor c))) 0;
             totalSimulations := Agg.sessionCount a;
             totalPullsConsumed := Agg.totalPulls a;
             averagePulls := js_div (Agg.totalPulls a) (Agg.sessionCount a);
             medianPulls := median (Agg.pullsArray a);
             pity120Triggered := Agg.triggeredGuaranteeCount a;
             maxPulls := maxPull (Agg.counts a) |}.
Proof.
  intros Hrun. apply runSimulation_Some in Hrun as (a & Hloop & Hsum).
  destruct (samples_invariant _ _ _ _ _ Hloop) as [Hinv Hpos].
  destruct (chartMax_reaches cfg a Hinv) as (c & Hc & Hm & HG).
  exists a, c. repeat (split; [done|]).
  unfold summarise in Hsum. rewrite Hc in Hsum. simpl in Hsum. by injection Hsum as <-.
Qed.

(** ** The distribution and the frequency map *)

Lemma distributionLoop_counts cfg counts n : ∀ range rc,
  sum_list (Dist.count <$> distributionLoop cfg counts n range rc)
  = sum_list (countAt counts <$> range).
Proof.
  induction range as [|i range IH]; intros rc; simpl; [done|].
  destruct (0 <? countAt counts i) eqn:E; simpl.
  - by rewrite IH.
  - apply Nat.ltb_ge in E. assert (H0 : countAt counts i = 0) by lia.
    destruct (_ || _); simpl; rewrite IH, H0; done.
Qed.

Lemma distributionLoop_up_to cfg counts n i : ∀ range rc,
  i ∈ range → (N2Q i <= Cfg.targetGuarantee cfg)%Q →
  ∃ e, e ∈ distributionLoop cfg counts n range rc ∧ Dist.pulls e = i.
Proof.
  induction range as [|x range IH]; intros rc Hin Hle.
  - by apply not_elem_of_nil in Hin.
  - simpl. apply elem_of_cons in Hin as [<-|Hin].
    + apply Qle_bool_iff in Hle. rewrite Hle, orb_true_r. simpl.
      eexists. split; [left|done].
    + destruct (IH (rc + countAt counts x) Hin Hle) as (e & He & Hp).
      exists e. split; [|done]. destruct (_ || _); [by right | done].
Qed.

(** X7: the entries of the distribution lose no session: their frequencies
    add up to the number of sessions, although draw-counts without a
    session are left out of it. *)
Theorem distribution_counts_every_session (random : nat → Q) (cfg : SimulationConfig)
    (sessionFuel fuel : nat) (res : SimulationResult) :
  runSimulation random cfg sessionFuel fuel = Some res →
  sum_list (Dist.count <$> distribution res) = totalSimulations res ∧
  Forall (λ e, 1 ≤ Dist.pulls e) (distribution res).
Proof.
  intros Hrun.
  apply runSimulation_shape in Hrun as (a & c & _ & Hinv & Hpos & Hm & _ & _ & ->). simpl.
  split.
  - rewrite distributionLoop_counts. by apply (runningCountAt_full a).
  - apply Forall_forall. intros e He.
    apply (distributionLoop_entry _ _ _ _ _ 0) in He as ([? _] & _). lia.
Qed.

Lemma distribution_counts_every_session_witness :
  ∃ res, runSimulation fourSessions sureRare 10 10 = Some res ∧
         sum_list (Dist.count <$> distribution res) = totalSimulations res.
Proof.
  destruct (runSimulation fourSessions sureRare 10 10) as [res|] eqn:E;
    [|vm_compute in E; discriminate E].
  exists res. split; [reflexivity|].
  exact (proj1 (distribution_counts_every_session fourSessions sureRare 10 10 res E)).
Defined.

(** ** The tally of the guarantee *)

Lemma filter_fires_integer cfg g l :
  1 ≤ g → (Cfg.targetGuarantee cfg == N2Q g)%Q →
  length (filter (λ p, guaranteeFires cfg p = true) l) = occurrences g l.
Proof.
  intros Hg HG. unfold occurrences. induction l as [|x l IH]; [done|].
  rewrite !filter_cons.
  destruct (decide (guaranteeFires cfg x = true)) as [Hf|Hf], (decide (x = g)) as [Hx|Hx];
    simpl; rewrite ?IH; try done.
  - exfalso. apply Hx. apply guaranteeFires_iff in Hf as [_ Heq].
    rewrite HG in Heq. by apply N2Q_eq.
  - exfalso. apply Hf. apply guaranteeFires_iff. rewrite HG, Hx. split; [|reflexivity].
    change 0%Q with (N2Q 0). apply N2Q_lt. lia.
Qed.

Lemma filter_never_fires cfg l :
  (∀ p, guaranteeFires cfg p = false) →
  length (filter (λ p, guaranteeFires cfg p = true) l) = 0.
Proof.
  intros Hnf. induction l as [|x l IH]; [done|].
  rewrite filter_cons, decide_False; [done|]. by rewrite Hnf.
Qed.

Lemma ratio_le_100 a n : a ≤ S n → (N2Q a / N2Q (S n) * 100 <= 100)%Q.
Proof.
  intros Hle. apply N2Q_le in Hle.
  assert (0 < N2Q (S n))%Q as Hpos by (change 0%Q with (N2Q 0); apply N2Q_lt; lia).
  assert (N2Q a / N2Q (S n) <= 1)%Q.
  { apply Qle_shift_div_r; [done | lra]. }
  lra.
Qed.

(** X8: the tally of the sessions that ran into the guarantee is at most the
    number of sessions; with a [targetGuarantee] that is a positive integer
    it is the frequency of the entry of that draw-count, which the
    distribution always has; with a [targetGuarantee] that is not positive or
    not an integer it is 0; and the rate shown is between 0 and 100. *)
Theorem guarantee_tally (random : nat → Q) (cfg : SimulationConfig)
    (sessionFuel fuel : nat) (res : SimulationResult) :
  runSimulation random cfg sessionFuel fuel = Some res →
  pity120Triggered res ≤ totalSimulations res ∧
  (∀ g, 1 ≤ g → (Cfg.targetGuarantee cfg == N2Q g)%Q →
     ∃ e, e ∈ distribution res ∧ Dist.pulls e = g ∧
          Dist.count e = pity120Triggered res) ∧
  ((Cfg.targetGuarantee cfg <= 0)%Q ∨ ¬ isInteger (Cfg.targetGuarantee cfg) →
   pity120Triggered res = 0) ∧
  (1 ≤ totalSimulations res →
   ∃ q, guaranteeRate res = Num q ∧ (0 <= q)%Q ∧ (q <= 100)%Q).
Proof.
  intros Hrun.
  apply runSimulation_shape in Hrun as (a & c & Hloop & Hinv & Hpos & Hm & HG & _ & ->).
  pose proof (tally_invariant _ _ _ _ _ Hloop) as Htally. simpl.
  assert (Hle : Agg.triggeredGuaranteeCount a ≤ Agg.sessionCount a).
  { rewrite Htally, (inv_sessions _ Hinv). apply length_filter. }
  split; [done|]. split; [|split].
  - intros g Hg Hgq.
    destruct (distributionLoop_up_to cfg (Agg.counts a) (Agg.sessionCount a) g
                (seq 1 (Z.to_nat (Qfloor c))) 0) as (e & He & Hp).
    { apply elem_of_seq. split; [lia|].
      rewrite Hgq in HG. apply Qfloor_resp_le in HG. unfold N2Q in HG.
      rewrite Qfloor_Z in HG. lia. }
    { rewrite Hgq. apply Qle_refl. }
    exists e. split; [done|]. split; [done|].
    apply (distributionLoop_entry _ _ _ _ _ 0) in He as (_ & -> & _).
    by rewrite Hp, (inv_counts _ Hinv), Htally, (filter_fires_integer cfg g).
  - intros Hno. rewrite Htally. apply filter_never_fires.
    destruct Hno as [Hneg|Hni]; [|by apply fractional_never_fires].
    intros p. apply not_true_iff_false. intros Hf.
    apply guaranteeFires_iff in Hf as [Hpos' _]. by apply (Qlt_not_le _ _ Hpos').
  - intros Hn. unfold guaranteeRate. simpl.
    destruct (Agg.sessionCount a) as [|n]; [lia|]. simpl.
    eexists. split; [done|].
    rewrite roundDigits_nonneg by apply ratio_nonneg.
    pose proof (ratio_nonneg (Agg.triggeredGuaranteeCount a) n) as H0.
    pose proof (ratio_le_100 (Agg.triggeredGuaranteeCount a) n Hle) as H1.
    set (x := (N2Q _ / N2Q _ * 100)%Q) in *.
    pose proof (scale_pos 2) as Hs. set (s := inject_Z (10 ^ Z.of_nat 2)) in *.
    split.
    + apply Qle_shift_div_l; [done|]. rewrite Qmult_0_l.
      change 0%Q with (inject_Z 0). rewrite <- Zle_Qle.
      change 0%Z with (Qfloor 0). apply Qfloor_resp_le.
      assert (0 <= x * s)%Q by (apply Qmult_le_0_compat; lra). lra.
    + apply Qle_shift_div_r; [done|].
      apply Qle_trans with (inject_Z (Qfloor (100 * s + (1 # 2)))).
      * rewrite <- Zle_Qle. apply Qfloor_resp_le.
        apply Qplus_le_compat; [|apply Qle_refl].
        apply Qmult_le_compat_r; [done | lra].
      * apply Qle_bool_iff. reflexivity.
Qed.

Lemma guarantee_tally_witness :
  ∃ res, runSimulation (λ _, 3 # 4)%Q (Cfg.mk (8 # 10) 8 65 5 80 10 3 5) 3 5 = Some res ∧
         pity120Triggered res ≤ totalSimulations res.
Proof.
  destruct (runSimulation (λ _, 3 # 4)%Q (Cfg.mk (8 # 10) 8 65 5 80 10 3 5) 3 5)
    as [res|] eqn:E; [|vm_compute in E; discriminate E].
  exists res. split; [reflexivity|].
  exact (proj1 (guarantee_tally _ _ 3 5 res E)).
Defined.

(** ** The mean *)

Lemma sum_list_bounds (l : list nat) m :
  Forall (λ p, 1 ≤ p) l → Forall (λ p, p ≤ m) l →
  length l ≤ sum_list l ∧ sum_list l ≤ length l * m.
Proof.
  induction l as [|x l IH]; intros H1 H2; [simpl; lia|].
  apply Forall_cons in H1 as [? ?]. apply Forall_cons in H2 as [? ?].
  destruct IH as [? ?]; [done..|]. simpl. split; [lia | nia].
Qed.

(** X9: after at least one session the mean is a number between 1 and the
    largest draw count of a session. *)
Theorem mean_between_one_and_max (random : nat → Q) (cfg : SimulationConfig)
    (sessionFuel fuel : nat) (res : SimulationResult) :
  runSimulation random cfg sessionFuel fuel = Some res →
  1 ≤ totalSimulations res →
  ∃ q m, averagePulls res = Num q ∧ maxPulls res = Num (N2Q m) ∧
         (1 <= q)%Q ∧ (q <= N2Q m)%Q.
Proof.
  intros Hrun Hn.
  apply runSimulation_shape in Hrun as (a & c & _ & Hinv & Hpos & _ & _ & _ & ->).
  simpl in *.
  assert (Hne : Agg.pullsArray a ≠ []).
  { intros Hnil. rewrite (inv_sessions _ Hinv), Hnil in Hn. simpl in Hn. lia. }
  set (m := max_list (Agg.pullsArray a)).
  destruct (sum_list_bounds (Agg.pullsArray a) m) as [Hlo Hhi]; [done| |].
  { apply Forall_forall. intros p Hp. by apply max_list_elem_of_le. }
  rewrite <- (inv_total _ Hinv), <- (inv_sessions _ Hinv) in Hlo, Hhi.
  destruct (Agg.sessionCount a) as [|n] eqn:Hsc; [lia|].
  exists (N2Q (Agg.totalPulls a) / N2Q (S n))%Q, m. simpl.
  split; [done|]. split; [by apply maxPull_samples|].
  assert (0 < N2Q (S n))%Q as Hp by (change 0%Q with (N2Q 0); apply N2Q_lt; lia).
  split.
  - apply Qle_shift_div_l; [done|]. rewrite Qmult_1_l. by apply N2Q_le.
  - apply Qle_shift_div_r; [done|].
    apply N2Q_le in Hhi. unfold N2Q in *.
    rewrite Nat2Z.inj_mul, inject_Z_mult in Hhi. lra.
Qed.

Lemma mean_between_one_and_max_witness :
  ∃ res q, runSimulation fourSessions sureRare 10 10 = Some res ∧
           averagePulls res = Num q ∧ (1 <= q)%Q.
Proof.
  destruct (runSimulation fourSessions sureRare 10 10) as [res|] eqn:E;
    [|vm_compute in E; discriminate E].
  destruct (mean_between_one_and_max fourSessions sureRare 10 10 res E)
    as (q & m & Hq & _ & H1 & _).
  - vm_compute in E. injection E as <-. simpl. lia.
  - exists res, q. split; [reflexivity|]. split; [exact Hq | exact H1].
Defined.

(** ** The median *)

Lemma filter_take_all (P : nat → Prop) `{∀ x, Decision (P x)} (l : list nat) k :
  Forall P (take k l) → length (take k l) ≤ length (filter P l).
Proof.
  revert k. induction l as [|x l IH]; intros k Hall; [by rewrite take_nil|].
  destruct k as [|k]; [simpl; lia|]. simpl in Hall.
  apply Forall_cons in Hall as [Hx Hall].
  rewrite filter_cons, decide_True by done. simpl. specialize (IH k Hall). lia.
Qed.

Lemma filter_drop_all (P : nat → Prop) `{∀ x, Decision (P x)} (l : list nat) k :
  Forall P (drop k l) → length (drop k l) ≤ length (filter P l).
Proof.
  revert k. induction l as [|x l IH]; intros k Hall; [by rewrite drop_nil|].
  destruct k as [|k]; simpl in Hall.
  - apply Forall_cons in Hall as [Hx Hall].
    rewrite filter_cons, decide_True by done. simpl.
    specialize (IH 0). rewrite drop_0 in IH. specialize (IH Hall). lia.
  - simpl. specialize (IH k Hall). rewrite filter_cons.
    destruct (decide (P x)); simpl; lia.
Qed.

Lemma middle_of_sorted (s : list nat) (x : nat) :
  StronglySorted le s → s !! (length s / 2) = Some x →
  length s < 2 * atMost x s ∧ length s ≤ 2 * atLeast x s.
Proof.
  intros Hsorted Hx. set (n := length s) in *.
  assert (Hhalf : n / 2 < n) by (by apply lookup_lt_Some in Hx).
  unfold atMost, atLeast. split.
  - assert (Forall (λ p, p ≤ x) (take (S (n / 2)) s)) as Hall.
    { apply Forall_lookup. intros i y Hi.
      apply lookup_take_Some in Hi as [Hi Hlt].
      destruct (decide (i = n / 2)) as [->|Hne']; [by assert (y = x) as -> by congruence|].
      eapply (StronglySorted_lookup_lt le); [exact Hsorted| |exact Hi|exact Hx]. lia. }
    pose proof (filter_take_all (λ p, p ≤ x) s _ Hall) as Hcount.
    rewrite length_take in Hcount. fold n in Hcount.
    pose proof (Nat.div_mod_eq n 2). pose proof (Nat.mod_upper_bound n 2). lia.
  - assert (Forall (λ p, x ≤ p) (drop (n / 2) s)) as Hall.
    { apply Forall_lookup. intros i y Hi. rewrite lookup_drop in Hi.
      destruct (decide (i = 0)) as [->|Hne'].
      - rewrite Nat.add_0_r in Hi. by assert (y = x) as -> by congruence.
      - eapply (StronglySorted_lookup_lt le); [exact Hsorted| |exact Hx|exact Hi]. lia. }
    pose proof (filter_drop_all (λ p, x ≤ p) s _ Hall) as Hcount.
    rewrite length_drop in Hcount. fold n in Hcount.
    pose proof (Nat.div_mod_eq n 2). pose proof (Nat.mod_upper_bound n 2). lia.
Qed.

Lemma median_is_Some (pullsArray : list nat) :
  pullsArray ≠ [] → is_Some (median pullsArray).
Proof.
  intros Hne. apply lookup_lt_is_Some_2.
  unfold sortAscending. rewrite merge_sort_Permutation.
  apply Nat.div_lt; [|lia]. destruct pullsArray; [done | simpl; lia].
Qed.

Lemma median_nonempty (pullsArray : list nat) :
  pullsArray ≠ [] →
  ∃ x, median pullsArray = Some x ∧
       x ∈ pullsArray ∧
       length pullsArray < 2 * atMost x pullsArray.
Proof.
  intros Hne. destruct (median_is_Some pullsArray Hne) as [x Hx].
  pose proof (merge_sort_Permutation le pullsArray) as Hperm.
  exists x. split; [done|]. split.
  { rewrite <- Hperm. by eapply list_elem_of_lookup_2. }
  unfold median in Hx. rewrite <- Hperm in Hx at 1.
  apply middle_of_sorted in Hx as [Hlt _]; [|apply (StronglySorted_merge_sort le)].
  unfold atMost in *. by rewrite Hperm in Hlt.
Qed.

(** X10: the median of samples that are not empty is one of the samples;
    more than half of the samples are at most the median, and at least half
    of them are at least the median. *)
Theorem median_splits_the_samples (pullsArray : list nat) :
  pullsArray ≠ [] →
  ∃ x, median pullsArray = Some x ∧
       x ∈ pullsArray ∧
       length pullsArray < 2 * atMost x pullsArray ∧
       length pullsArray ≤ 2 * atLeast x pullsArray.
Proof.
  intros Hne. destruct (median_is_Some pullsArray Hne) as [x Hx].
  pose proof (merge_sort_Permutation le pullsArray) as Hperm.
  exists x. split; [done|]. split.
  { rewrite <- Hperm. by eapply list_elem_of_lookup_2. }
  unfold median in Hx. rewrite <- Hperm in Hx at 1.
  apply middle_of_sorted in Hx as [Hlt Hle]; [|apply (StronglySorted_merge_sort le)].
  unfold atMost, atLeast in *. rewrite Hperm in Hlt, Hle. done.
Qed.

Lemma median_splits_the_samples_witness :
  [1; 1; 2; 3; 5] ≠ [] ∧
  ∃ x, median [1; 1; 2; 3; 5] = Some x ∧ 5 < 2 * atMost x [1; 1; 2; 3; 5].
Proof.
  split; [discriminate|].
  destruct (median_splits_the_samples [1; 1; 2; 3; 5]) as (x & Hx & _ & Hm & _);
    [discriminate|].
  exists x. split; [exact Hx | exact Hm].
Defined.

(** ** The budgets read off the distribution *)

Lemma find_first {A} (R : A → A → Prop) (p : A → bool) (l : list A) :
  StronglySorted R l →
  ∀ e, List.find p l = Some e →
    e ∈ l ∧ p e = true ∧ ∀ e', e' ∈ l → p e' = true → e = e' ∨ R e e'.
Proof.
  induction 1 as [|a l _ IH Hall]; intros e Hf; simpl in Hf; [done|].
  destruct (p a) eqn:Hpa.
  - injection Hf as <-. split; [left|]. split; [done|].
    intros e' He' _. apply elem_of_cons in He' as [->|He']; [by left|].
    right. rewrite Forall_forall in Hall. by apply Hall.
  - destruct (IH e Hf) as (Hin & Hpe & Hfirst). split; [by right|]. split; [done|].
    intros e' He' Hpe'. apply elem_of_cons in He' as [->|He']; [congruence|].
    by apply Hfirst.
Qed.

Lemma find_exists {A} (p : A → bool) (l : list A) e' :
  e' ∈ l → p e' = true → is_Some (List.find p l).
Proof.
  induction l as [|a l IH]; intros Hin Hp; [by apply not_elem_of_nil in Hin|].
  simpl. destruct (p a) eqn:Hpa; [eauto|].
  apply elem_of_cons in Hin as [->|Hin]; [congruence | by apply IH].
Qed.

Lemma upTo_atMost x l : Forall (λ p, 1 ≤ p) l → upTo x l = atMost x l.
Proof.
  unfold upTo, atMost. induction l as [|y l IH]; intros Hall; [done|].
  apply Forall_cons in Hall as [Hy Hall]. rewrite !filter_cons.
  destruct (decide (1 ≤ y ∧ y ≤ x)), (decide (y ≤ x)); simpl; rewrite ?IH; try done; lia.
Qed.

Lemma cumulativeAt_at_least counts n i (t : Q) :
  1 ≤ n → (0 <= t)%Q → (t <= roundDigits 2 t)%Q →
  (t * N2Q n <= 100 * N2Q (runningCountAt counts i))%Q →
  js_le (Num t) (cumulativeAt counts n i) = true.
Proof.
  intros Hn Ht Hround Hratio. destruct n as [|n]; [lia|].
  unfold cumulativeAt, js_div. simpl. apply Qle_bool_iff.
  eapply Qle_trans; [exact Hround|]. apply roundDigits_mono; [done|].
  assert (0 < N2Q (S n))%Q as Hp by (change 0%Q with (N2Q 0); apply N2Q_lt; lia).
  assert (Heq : (N2Q (runningCountAt counts i) / N2Q (S n) * 100 * N2Q (S n)
                 == 100 * N2Q (runningCountAt counts i))%Q).
  { field. intros H0. rewrite H0 in Hp. by apply (Qlt_irrefl 0). }
  apply (Qmult_le_r _ _ (N2Q (S n)) Hp). rewrite Heq. exact Hratio.
Qed.

Lemma js_le_Num_trans (t u : Q) (x : JSNum) :
  (t <= u)%Q → js_le (Num u) x = true → js_le (Num t) x = true.
Proof.
  intros Htu. destruct x; simpl; try done.
  intros H. apply Qle_bool_iff in H. apply Qle_bool_iff. by eapply Qle_trans.
Qed.

Lemma js_eq_100_at_least (t : Q) (x : JSNum) :
  (t <= 100)%Q → js_eq x (Num 100) = true → js_le (Num t) x = true.
Proof.
  intros Ht. destruct x; simpl; try done.
  intros H. apply Qeq_bool_iff in H. apply Qle_bool_iff. by rewrite H.
Qed.

(** X11: after at least one session the two budgets the page reads off the
    distribution (the first draw-count with a cumulative percentage of at
    least 50, and of at least 90) are defined; the first is at most the
    second, which is at most the largest draw count, and the first is at
    most the median.  After no session both are undefined. *)
Theorem budgets_of_a_result (random : nat → Q) (cfg : SimulationConfig)
    (sessionFuel fuel : nat) (res : SimulationResult) :
  runSimulation random cfg sessionFuel fuel = Some res →
  (1 ≤ totalSimulations res →
   ∃ p50 p90 x m,
     budgetFor 50 res = Some p50 ∧ budgetFor 90 res = Some p90 ∧
     medianPulls res = Some x ∧ maxPulls res = Num (N2Q m) ∧
     1 ≤ p50 ∧ p50 ≤ p90 ∧ p90 ≤ m ∧ p50 ≤ x) ∧
  (totalSimulations res = 0 → ∀ t, budgetFor t res = None).
Proof.
  intros Hrun.
  apply runSimulation_shape in Hrun as (a & c & _ & Hinv & Hpos & Hm & _ & _ & ->).
  unfold budgetFor. cbn [distribution totalSimulations medianPulls maxPulls].
  set (d := distributionLoop cfg (Agg.counts a) (Agg.sessionCount a)
              (seq 1 (Z.to_nat (Qfloor c))) 0).
  assert (Hentry : ∀ e, e ∈ d →
    0 < Dist.pulls e ∧
    Dist.cumulativePercent e
    = cumulativeAt (Agg.counts a) (Agg.sessionCount a) (Dist.pulls e)).
  { intros e He. apply (distributionLoop_entry _ _ _ _ _ 0) in He as ([? _] & _ & ?). done. }
  assert (Hsorted : StronglySorted (λ e1 e2, Dist.pulls e1 < Dist.pulls e2) d)
    by apply (distributionLoop_sorted _ _ _ _ 0).
  split.
  - intros Hn.
    assert (Hne : Agg.pullsArray a ≠ []).
    { intros Hnil. rewrite (inv_sessions _ Hinv), Hnil in Hn. simpl in Hn. lia. }
    set (m := max_list (Agg.pullsArray a)) in *.
    destruct (median_nonempty (Agg.pullsArray a) Hne) as (x & Hx & Hxin & Hhalf).
    assert (Hhas : ∀ i, i ∈ Agg.pullsArray a → ∃ e, e ∈ d ∧ Dist.pulls e = i).
    { intros i Hi. apply distributionLoop_includes.
      - apply elem_of_seq. rewrite Forall_forall in Hpos. specialize (Hpos i Hi).
        apply max_list_elem_of_le in Hi. fold m in Hi. lia.
      - rewrite (inv_counts _ Hinv). by apply occurrences_pos. }
    destruct (Hhas x Hxin) as (ex & Hex & Hexp).
    destruct (Hhas m) as (em & Hem & Hemp); [by apply max_list_elem_of|].
    assert (H50x : js_le (Num 50) (Dist.cumulativePercent ex) = true).
    { destruct (Hentry ex Hex) as [_ ->]. rewrite Hexp.
      apply cumulativeAt_at_least; [done | done | by apply Qle_bool_iff |].
      rewrite (runningCountAt_upTo _ (Agg.pullsArray a)) by apply (inv_counts _ Hinv).
      rewrite upTo_atMost by done. rewrite (inv_sessions _ Hinv).
      assert (length (Agg.pullsArray a)
              ≤ atMost x (Agg.pullsArray a) + atMost x (Agg.pullsArray a)) as Hle by lia.
      apply N2Q_le in Hle. rewrite N2Q_plus in Hle. lra. }
    assert (H90m : js_le (Num 90) (Dist.cumulativePercent em) = true).
    { apply js_eq_100_at_least; [done|].
      destruct (Hentry em Hem) as [_ ->]. rewrite Hemp.
      apply cumulativeAt_full; [done|]. by apply runningCountAt_full. }
    destruct (find_exists (λ e, js_le (Num 90) (Dist.cumulativePercent e)) d em Hem H90m)
      as [e90 H90].
    destruct (find_first _ _ d Hsorted e90 H90) as (He90 & Hp90 & Hfirst90).
    assert (H50e90 : js_le (Num 50) (Dist.cumulativePercent e90) = true)
      by by apply (js_le_Num_trans 50 90).
    destruct (find_exists (λ e, js_le (Num 50) (Dist.cumulativePercent e)) d ex Hex H50x)
      as [e50 H50].
    destruct (find_first _ _ d Hsorted e50 H50) as (He50 & Hp50 & Hfirst50).
    exists (Dist.pulls e50), (Dist.pulls e90), x, m.
    rewrite H50, H90. simpl. repeat (split; [done|]).
    split; [by apply maxPull_samples|].
    split; [destruct (Hentry e50 He50); lia|].
    split; [destruct (Hfirst50 e90 He90 H50e90) as [->|?]; lia|].
    split; [destruct (Hfirst90 em Hem H90m) as [->|?]; lia|].
    destruct (Hfirst50 ex Hex H50x) as [->|?]; lia.
  - intros Hn t.
    assert (Hnone : ∀ e, e ∈ d → js_le (Num t) (Dist.cumulativePercent e) = false).
    { intros e He. destruct (Hentry e He) as [_ ->].
      unfold cumulativeAt. rewrite Hn.
      rewrite (runningCountAt_full a (Dist.pulls e) Hinv Hpos), Hn; [done|].
      rewrite (inv_sessions _ Hinv) in Hn. apply length_zero_iff_nil in Hn.
      rewrite Hn. simpl. lia. }
    destruct (List.find _ d) as [e|] eqn:Hf; [|done].
    apply find_some in Hf as [Hin Hp]. apply list_elem_of_In in Hin.
    rewrite (Hnone e Hin) in Hp. done.
Qed.

Lemma budgets_of_a_result_witness :
  ∃ res, runSimulation fourSessions sureRare 10 10 = Some res ∧
         budgetFor 50 res = Some 2 ∧ budgetFor 90 res = Some 4.
Proof.
  destruct (runSimulation fourSessions sureRare 10 10) as [res|] eqn:E;
    [|vm_compute in E; discriminate E].
  destruct (proj1 (budgets_of_a_result fourSessions sureRare 10 10 res E))
    as (p50 & p90 & x & m & H50 & H90 & _).
  - vm_compute in E. injection E as <-. simpl. lia.
  - exists res. split; [reflexivity|].
    vm_compute in E. injection E as <-. split; reflexivity.
Defined.

(** ** The ticks of the axes *)

Lemma List_filter_all {A} (p : A → bool) (l : list A) :
  Forall (λ x, p x = true) l → List.filter p l = l.
Proof.
  induction 1 as [|x l Hx _ IH]; [done|]. simpl. by rewrite Hx, IH.
Qed.

Lemma List_filter_none {A} (p : A → bool) (l : list A) :
  Forall (λ x, p x = false) l → List.filter p l = [].
Proof.
  induction 1 as [|x l Hx _ IH]; [done|]. simpl. by rewrite Hx, IH.
Qed.

Lemma ticks_length_reaches (m : nat) :
  m / 10 + 1 ≤ Z.to_nat (Qceiling (N2Q m / 10) + 1).
Proof.
  assert (N2Q (m / 10) <= N2Q m / 10)%Q as Hle.
  { apply Qle_shift_div_l; [reflexivity|].
    change 10%Q with (N2Q 10). unfold N2Q.
    rewrite <- inject_Z_mult, <- Zle_Qle, <- Nat2Z.inj_mul.
    pose proof (Nat.div_mod_eq m 10). lia. }
  pose proof (Qle_ceiling (N2Q m / 10)) as Hc.
  assert (inject_Z (Z.of_nat (m / 10)) <= inject_Z (Qceiling (N2Q m / 10)))%Q as Hz
    by (eapply Qle_trans; [exact Hle | exact Hc]).
  rewrite <- Zle_Qle in Hz. lia.
Qed.

(** X12: the ticks of the two horizontal axes are the multiples of 10 from 0
    up to the largest draw count, each once and in order; there is none
    after a run without session. *)
Theorem ticks_are_the_multiples_of_ten (m : nat) :
  ticks (Num (N2Q m)) = Some ((λ i, i * 10) <$> seq 0 (m / 10 + 1)) ∧
  ticks NegInfinity = Some [].
Proof.
  split; [|done]. unfold ticks. f_equal.
  pose proof (ticks_length_reaches m) as Hlen.
  set (L := Z.to_nat _) in *.
  replace L with ((m / 10 + 1) + (L - (m / 10 + 1))) by lia.
  rewrite seq_app, fmap_app, List.filter_app.
  rewrite List_filter_all, List_filter_none; [by rewrite app_nil_r| |].
  - apply Forall_forall. intros n Hn.
    apply list_elem_of_fmap in Hn as (i & -> & Hi). apply elem_of_seq in Hi.
    apply Qle_bool_false, N2Q_lt.
    pose proof (Nat.div_mod_eq m 10). pose proof (Nat.mod_upper_bound m 10). lia.
  - apply Forall_forall. intros n Hn.
    apply list_elem_of_fmap in Hn as (i & -> & Hi). apply elem_of_seq in Hi.
    apply Qle_bool_iff, N2Q_le.
    pose proof (Nat.div_mod_eq m 10). lia.
Qed.

(** ** The number of sessions of a run *)

(** X13: a completed run with [targetTotalPulls > 0] has at least one
    session and fewer than [targetTotalPulls + 1] sessions; with a
    [targetGuarantee] that is a positive integer [g] it has at least
    [targetTotalPulls / g] sessions. *)
Theorem sessions_of_a_run (random : nat → Q) (cfg : SimulationConfig)
    (sessionFuel fuel : nat) (res : SimulationResult) :
  (0 < Cfg.targetTotalPulls cfg)%Q →
  runSimulation random cfg sessionFuel fuel = Some res →
  1 ≤ totalSimulations res ∧
  (N2Q (totalSimulations res) < Cfg.targetTotalPulls cfg + 1)%Q ∧
  ∀ g, 1 ≤ g → (Cfg.targetGuarantee cfg == N2Q g)%Q →
       (Cfg.targetTotalPulls cfg <= N2Q (totalSimulations res) * N2Q g)%Q.
Proof.
  intros Hpos Hrun.
  apply runSimulation_Some in Hrun as (a & Hloop & Hsum).
  set (P := λ p, 1 ≤ p ∧ ∀ g, 1 ≤ g → (Cfg.targetGuarantee cfg == N2Q g)%Q → p ≤ g).
  destruct (sessionsLoop_end random cfg sessionFuel P) with (fuel := fuel)
    (a := emptyAgg) (a' := a) as (Hinv & Hall & Hge & Hlast);
    [ | done | apply emptyAgg_inv | constructor | ].
  { intros calls r calls' Hs. split.
    - by eapply simulateOneSession_at_least_one.
    - intros g Hg HG. eapply (whileLoop_bound random cfg g Hg HG); [exact Hs|simpl; lia..]. }
  destruct Hlast as [->|(l & last & Hl & Hlt)].
  { exfalso. simpl in Hge. apply (Qlt_not_le _ _ Hpos). exact Hge. }
  unfold summarise in Hsum. destruct (forRange _); [|done]. injection Hsum as <-. simpl.
  pose proof (inv_sessions _ Hinv) as Hn. rewrite Hl, length_app in Hn. simpl in Hn.
  assert (Hone : Forall (λ p, 1 ≤ p) (Agg.pullsArray a))
    by (eapply Forall_impl; [exact Hall|]; by intros p [? _]).
  split; [lia|]. split.
  - rewrite Hl in Hone. apply Forall_app in Hone as [Hone _].
    destruct (sum_list_bounds l (max_list l) Hone) as [Hlow _].
    { apply Forall_forall. intros p Hp. by apply max_list_elem_of_le. }
    rewrite Hn, N2Q_plus. apply N2Q_le in Hlow. change (N2Q 1) with 1%Q. lra.
  - intros g Hg HG.
    destruct (sum_list_bounds (Agg.pullsArray a) g Hone) as [_ Hhigh].
    { eapply Forall_impl; [exact Hall|]. intros p [_ Hb]. by apply Hb. }
    rewrite <- (inv_total _ Hinv), <- (inv_sessions _ Hinv) in Hhigh.
    apply N2Q_le in Hhigh. eapply Qle_trans; [exact Hge|].
    eapply Qle_trans; [exact Hhigh|]. unfold N2Q.
    rewrite Nat2Z.inj_mul, inject_Z_mult. apply Qle_refl.
Qed.

Lemma sessions_of_a_run_witness :
  (0 < Cfg.targetTotalPulls sureRare)%Q ∧
  ∃ res, runSimulation fourSessions sureRare 10 10 = Some res ∧
         1 ≤ totalSimulations res.
Proof.
  split; [reflexivity|].
  destruct (runSimulation fourSessions sureRare 10 10) as [res|] eqn:E;
    [|vm_compute in E; discriminate E].
  exists res. split; [reflexivity|].
  refine (proj1 (sessions_of_a_run fourSessions sureRare 10 10 res _ E)). reflexivity.
Defined.

(** X14: with a [targetGuarantee] that is a positive integer [g] a run
    always completes: [g] executions of the loop body are enough for each
    session, and as many sessions as [targetTotalPulls] has draws for the
    run, whatever the random values are. *)
Theorem run_completes_with_guarantee (random : nat → Q) (cfg : SimulationConfig)
    (g sessionFuel fuel : nat) :
  1 ≤ g → (Cfg.targetGuarantee cfg == N2Q g)%Q → g ≤ sessionFuel →
  (Cfg.targetTotalPulls cfg <= N2Q fuel)%Q →
  ∃ res, runSimulation random cfg sessionFuel fuel = Some res ∧
         (Cfg.targetTotalPulls cfg <= N2Q (totalPullsConsumed res))%Q.
Proof.
  intros Hg HG Hsf Hfuel.
  destruct (runSimulation_terminates random cfg g sessionFuel fuel Hg HG Hsf Hfuel)
    as [res Hrun].
  exists res. split; [done|].
  apply runSimulation_Some in Hrun as (a & Hloop & Hsum).
  unfold summarise in Hsum. destruct (forRange _); [|done]. injection Hsum as <-. simpl.
  destruct (sessionsLoop_end random cfg sessionFuel (λ _, True)) with (fuel := fuel)
    (a := emptyAgg) (a' := a) as (_ & _ & Hge & _);
    [done | done | apply emptyAgg_inv | constructor | done].
Qed.

Lemma run_completes_with_guarantee_witness :
  1 ≤ 120 ∧
  ∃ res, runSimulation (λ _, 3 # 4)%Q (Cfg.mk (8 # 10) 8 65 5 80 10 120 500) 120 500
         = Some res.
Proof.
  split; [lia|].
  destruct (run_completes_with_guarantee (λ _, 3 # 4)%Q
              (Cfg.mk (8 # 10) 8 65 5 80 10 120 500) 120 120 500) as (res & Hres & _);
    [lia | reflexivity | lia | apply Qle_bool_iff; reflexivity |].
  exists res. exact Hres.
Defined.

(** ** Which draw-counts the distribution has *)

Lemma distributionLoop_pulls cfg counts n i : ∀ range rc,
  (∃ e, e ∈ distributionLoop cfg counts n range rc ∧ Dist.pulls e = i) ↔
  i ∈ range ∧
  (0 < countAt counts i ∨ (N2Q i <= Cfg.targetGuarantee cfg)%Q ∨ i mod 10 = 0).
Proof.
  induction range as [|x range IH]; intros rc; simpl.
  - split; [intros (e & He & _); by apply not_elem_of_nil in He|].
    intros [Hin _]. by apply not_elem_of_nil in Hin.
  - assert (Hcond : (0 <? countAt counts x) || Qle_bool (N2Q x) (Cfg.targetGuarantee cfg)
                    || (x mod 10 =? 0) = true ↔
                    0 < countAt counts x ∨ (N2Q x <= Cfg.targetGuarantee cfg)%Q ∨
                    x mod 10 = 0).
    { rewrite !orb_true_iff, Nat.ltb_lt, Qle_bool_iff, Nat.eqb_eq. tauto. }
    specialize (IH (rc + countAt counts x)). rewrite elem_of_cons.
    destruct (_ || _) eqn:E.
    + split.
      * intros (e & He & Hp). apply elem_of_cons in He as [->|He].
        -- simpl in Hp. subst x. split; [by left|]. by apply Hcond.
        -- destruct (proj1 IH) as [? ?]; [by exists e|]. split; [by right | done].
      * intros [[->|Hin] Hc].
        -- eexists. split; [left|done].
        -- destruct (proj2 IH) as (e & He & Hp); [done|]. exists e. split; [by right|done].
    + split.
      * intros Hex. destruct (proj1 IH Hex) as [? ?]. split; [by right | done].
      * intros [[->|Hin] Hc]; [|by apply IH].
        apply Hcond in Hc. congruence.
Qed.

(** X15: the distribution has an entry for a draw-count exactly when the
    draw-count is between 1 and the larger of the largest draw count and
    [targetGuarantee], and it has a session, or is at most
    [targetGuarantee], or is a multiple of 10; no draw-count has two
    entries. *)
Theorem entries_of_the_distribution (random : nat → Q) (cfg : SimulationConfig)
    (sessionFuel fuel : nat) (a : Agg.t) (res : SimulationResult) :
  sessionsLoop random cfg sessionFuel fuel emptyAgg = Some a →
  summarise cfg a = Some res →
  ∃ c, js_max (maxPulls res) (Num (Cfg.targetGuarantee cfg)) = Num c ∧
    (∀ i, (∃ e, e ∈ distribution res ∧ Dist.pulls e = i) ↔
          1 ≤ i ∧ (N2Q i <= c)%Q ∧
          (0 < countAt (Agg.counts a) i ∨ (N2Q i <= Cfg.targetGuarantee cfg)%Q ∨
           i mod 10 = 0)) ∧
    NoDup (Dist.pulls <$> distribution res).
Proof.
  intros Hloop Hsum.
  destruct (samples_invariant _ _ _ _ _ Hloop) as [Hinv _].
  destruct (chartMax_reaches cfg a Hinv) as (c & Hc & _ & _).
  unfold summarise in Hsum. rewrite Hc in Hsum. simpl in Hsum. injection Hsum as <-.
  exists c. simpl. split; [done|]. split.
  - intros i. rewrite distributionLoop_pulls, elem_of_seq.
    assert (1 ≤ i ∧ i < 1 + Z.to_nat (Qfloor c) ↔ 1 ≤ i ∧ (N2Q i <= c)%Q) as Hrange.
    { split; intros [H1 H2]; (split; [done|]).
      - apply Qle_trans with (inject_Z (Qfloor c)); [|apply Qfloor_le].
        unfold N2Q. rewrite <- Zle_Qle. lia.
      - apply Qfloor_resp_le in H2. unfold N2Q in H2. rewrite Qfloor_Z in H2. lia. }
    tauto.
  - pose proof (distributionLoop_sorted cfg (Agg.counts a) (Agg.sessionCount a)
                  (Z.to_nat (Qfloor c)) 0) as Hs.
    change (runningCountAt (Agg.counts a) 0) with 0 in Hs.
    induction Hs as [|e d _ IH Hall]; [constructor|].
    simpl. constructor; [|done].
    intros Hin. apply list_elem_of_fmap in Hin as (e' & Heq & He').
    rewrite Forall_forall in Hall. specialize (Hall e' He'). lia.
Qed.

Lemma entries_of_the_distribution_witness :
  ∃ res, summarise sureRare
           (default emptyAgg (sessionsLoop fourSessions sureRare 10 10 emptyAgg)) = Some res ∧
         NoDup (Dist.pulls <$> distribution res).
Proof.
  destruct (summarise sureRare
              (default emptyAgg (sessionsLoop fourSessions sureRare 10 10 emptyAgg)))
    as [res|] eqn:E; [|vm_compute in E; discriminate E].
  destruct (entries_of_the_distribution fourSessions sureRare 10 10
              (default emptyAgg (sessionsLoop fourSessions sureRare 10 10 emptyAgg)) res)
    as (c & _ & _ & Hnd); [vm_compute; reflexivity | exact E |].
  exists res. split; [reflexivity | exact Hnd].
Defined.

(** ** The common tier *)

(** X16: hard pity of the common tier.  With random values below 1 and a
    base rate and an increment of the rare tier that are not negative, a
    draw without rare-tier outcome whose common counter has reached
    [hardPity5] resets it; so after every draw the common counter is 0 or
    below [hardPity5], unless the draw was a rare-tier outcome (which leaves
    the common counter as it is). *)
Theorem hard_pity_of_the_common_tier (random : nat → Q) (cfg : SimulationConfig)
    (calls n : nat) (st : St.t) :
  (∀ k, (random k < 1)%Q) →
  (0 <= Cfg.baseRate6 cfg)%Q → (0 <= Cfg.pityInc6 cfg)%Q →
  bodyTimes random cfg n (initial calls) = Running st →
  St.pityCounter5 st = 0 ∨
  (N2Q (St.pityCounter5 st) < Cfg.hardPity5 cfg)%Q ∨
  St.pityCounter6 st = 0.
Proof.
  intros Hrand Hb Hi Hrun.
  apply (bodyTimes_invariant random cfg
    (λ st, St.pityCounter5 st = 0 ∨ (N2Q (St.pityCounter5 st) < Cfg.hardPity5 cfg)%Q ∨
           St.pityCounter6 st = 0)) in Hrun; [done| |by left].
  clear Hrun st. intros st st' _ Hbody. unfold loopBody in Hbody.
  destruct (guaranteeFires _ _); [done|].
  destruct (Qlt_bool _ (currentRate6 _ _)) eqn:E.
  - injection Hbody as <-. simpl. by right; right.
  - destruct (Qlt_bool _ (_ + _)) eqn:E5; injection Hbody as <-; simpl; [by left|].
    right; left. apply Qlt_bool_false in E5.
    destruct (Qlt_le_dec (N2Q (S (St.pityCounter5 st))) (Cfg.hardPity5 cfg)) as [?|Hhard];
      [done|].
    exfalso. unfold currentRate5 in E5. apply Qle_bool_iff in Hhard. rewrite Hhard in E5.
    pose proof (currentRate6_nonneg cfg (S (St.pityCounter6 st)) Hb Hi).
    pose proof (Hrand (St.calls st)). lra.
Qed.

Lemma hard_pity_of_the_common_tier_witness :
  (∀ k : nat, (3 # 4 < 1)%Q) ∧
  (2 = 0 ∨ (N2Q 2 < Cfg.hardPity5 DEFAULT_CONFIG)%Q ∨ 2 = 0).
Proof.
  split; [intros _; reflexivity|].
  refine (hard_pity_of_the_common_tier (λ _, 3 # 4)%Q DEFAULT_CONFIG 0 2
            (St.mk 2 2 2 false 2) _ _ _ _);
    [intros _; reflexivity | apply Qle_bool_iff; reflexivity
    | apply Qle_bool_iff; reflexivity | reflexivity].
Defined.
